(** * XPath and CSS selector generator (src/pages/XPathGenerator.tsx)

    A shallow embedding of [generateSelectors] and of its helpers
    [getXPathTo], [escapeXpathText] and [escapeCssAttr], together with the
    part of the browser's DOM the function reads.

    Strings are sequences of UTF-16 code units in the source. Here a string
    is a [string] whose characters stand for the code units 0..255, which
    covers every character the generator treats specially (quotes,
    backslash, white space, ASCII letters and digits). *)

From Stdlib Require Import Ascii String DecimalString.
From Stdlib Require QArith Qround.
From stdpp Require Import base list strings.


(** ** JavaScript string primitives *)

Module JS.

Definition code (c : ascii) : nat := nat_of_ascii c.

(** [String.prototype.toLowerCase] on the code units 0..255. *)
Definition lower_char (c : ascii) : ascii :=
  let n := code c in
  if bool_decide (65 ≤ n ≤ 90) then ascii_of_nat (n + 32)
  else if bool_decide (192 ≤ n ≤ 222 ∧ n ≠ 215) then ascii_of_nat (n + 32)
  else c.

Fixpoint toLowerCase (s : string) : string :=
  match s with
  | EmptyString => EmptyString
  | String c s' => String (lower_char c) (toLowerCase s')
  end.

(** White space and line terminators of ECMAScript (what [trim] strips and
    what the regular expression class \s matches) among the code units
    0..255: TAB, LF, VT, FF, CR, SPACE and NBSP. *)
Definition is_space (c : ascii) : bool :=
  bool_decide (code c ∈ [9; 10; 11; 12; 13; 32; 160]).

Fixpoint trimStart (s : string) : string :=
  match s with
  | EmptyString => EmptyString
  | String c s' => if is_space c then trimStart s' else s
  end.

Fixpoint trimEnd (s : string) : string :=
  match s with
  | EmptyString => EmptyString
  | String c s' =>
      match trimEnd s' with
      | EmptyString => if is_space c then EmptyString else String c EmptyString
      | r => String c r
      end
  end.

Definition trim (s : string) : string := trimEnd (trimStart s).

(** [s.replace(/\s+/g, " ")]: every maximal run of white space becomes one
    space. [in_run] tells whether the previous character was white space. *)
Fixpoint collapse_from (in_run : bool) (s : string) : string :=
  match s with
  | EmptyString => EmptyString
  | String c s' =>
      if is_space c
      then (if in_run then collapse_from true s'
            else String " " (collapse_from true s'))
      else String c (collapse_from false s')
  end.

Definition collapse_spaces (s : string) : string := collapse_from false s.

(** [s.indexOf(c) !== -1] for a one-character needle. *)
Fixpoint contains_char (c : ascii) (s : string) : bool :=
  match s with
  | EmptyString => false
  | String d s' => if bool_decide (c = d) then true else contains_char c s'
  end.

(** [s.replace(/c/g, r)] for a one-character pattern. *)
Fixpoint replace_char (c : ascii) (r : string) (s : string) : string :=
  match s with
  | EmptyString => EmptyString
  | String d s' =>
      if bool_decide (c = d) then r +:+ replace_char c r s'
      else String d (replace_char c r s')
  end.

(** Truthiness of a string, and of a possibly null string. *)
Definition truthy (s : string) : bool := negb (bool_decide (s = EmptyString)).

Definition truthy_opt (o : option string) : bool :=
  match o with
  | Some s => truthy s
  | None => false
  end.

(** [Array.prototype.includes]. *)
Definition includes (l : list string) (x : string) : bool :=
  bool_decide (x ∈ l).

(** Decimal rendering of a number inside a template literal. *)
Definition of_nat (n : nat) : string :=
  NilEmpty.string_of_uint (Nat.to_uint n).

(** A [Set] of strings keeps its members in insertion order; adding a
    member that is already present changes nothing. *)
Definition Set_add (s : list string) (x : string) : list string :=
  if bool_decide (x ∈ s) then s else s ++ [x].

Definition new_Set (xs : list string) : list string :=
  fold_left Set_add xs [].

(** [Array.from(set)] lists the members in insertion order. *)
Definition Array_from (s : list string) : list string := s.

(** [array.forEach((x, index) => ...)] with the callback's effect on the
    captured variables made explicit as a state of type [St]. *)
Fixpoint forEach_from {A St : Type} (f : A → nat → St → St)
    (index : nat) (l : list A) (s : St) : St :=
  match l with
  | [] => s
  | x :: l' => forEach_from f (S index) l' (f x index s)
  end.

Definition forEach {A St : Type} (f : A → nat → St → St)
    (l : list A) (s : St) : St :=
  forEach_from f 0 l s.

End JS.

(** ** CSS.escape (CSSOM, "serialize an identifier") *)

Module CSS.

Definition hex_digit (n : nat) : ascii :=
  if bool_decide (n < 10) then ascii_of_nat (48 + n) else ascii_of_nat (87 + n).

(** Lower-case hexadecimal of a code unit below 256, without leading zero. *)
Definition hex (n : nat) : string :=
  if bool_decide (n < 16) then String (hex_digit n) EmptyString
  else String (hex_digit (n / 16)) (String (hex_digit (n mod 16)) EmptyString).

Definition escape_code_point (c : ascii) : string :=
  "\" +:+ hex (JS.code c) +:+ " ".

Definition is_digit (c : ascii) : bool := bool_decide (48 ≤ JS.code c ≤ 57).

Definition is_name_char (c : ascii) : bool :=
  let n := JS.code c in
  bool_decide (128 ≤ n ∨ n = 45 ∨ n = 95 ∨ 48 ≤ n ≤ 57 ∨ 65 ≤ n ≤ 90 ∨ 97 ≤ n ≤ 122).

(** One character of the identifier; [i] is its index, [first] the first
    character of the whole string and [len] the string's length. U+0000 is
    replaced by U+FFFD, which lies outside the modelled alphabet and is
    written here as the CSS escape that denotes it. *)
Definition escape_char (first : ascii) (len i : nat) (c : ascii) : string :=
  let n := JS.code c in
  if bool_decide (n = 0) then "\fffd "
  else if bool_decide (1 ≤ n ≤ 31 ∨ n = 127) then escape_code_point c
  else if bool_decide (i = 0) && is_digit c then escape_code_point c
  else if bool_decide (i = 1) && is_digit c && bool_decide (JS.code first = 45)
       then escape_code_point c
  else if bool_decide (i = 0 ∧ n = 45 ∧ len = 1) then "\-"
  else if is_name_char c then String c EmptyString
  else String "\" (String c EmptyString).

Fixpoint escape_from (first : ascii) (len i : nat) (s : string) : string :=
  match s with
  | EmptyString => EmptyString
  | String c s' => escape_char first len i c +:+ escape_from first len (S i) s'
  end.

Definition escape (s : string) : string :=
  match s with
  | EmptyString => EmptyString
  | String first _ => escape_from first (String.length s) 0 s
  end.

End CSS.

(** ** The DOM as the generator reads it *)

Module DOM.

#[local] Set Warnings "-register-all".

(** A node of a document tree. Comment nodes are left out: no primitive
    used by the generator ([children], [textContent], selectors) sees them. *)
Inductive Node : Type :=
| Element (tagName : string) (attributes : list (string * string))
    (childNodes : list Node)
| Text (data : string).

Definition node_tagName (n : Node) : string :=
  match n with
  | Element t _ _ => t
  | Text _ => EmptyString
  end.

Definition node_attributes (n : Node) : list (string * string) :=
  match n with
  | Element _ a _ => a
  | Text _ => []
  end.

Definition childNodes_of (n : Node) : list Node :=
  match n with
  | Element _ _ cs => cs
  | Text _ => []
  end.

Definition is_element (n : Node) : bool :=
  match n with
  | Element _ _ _ => true
  | Text _ => false
  end.

(** The element children of a node, in order. *)
Definition element_children (n : Node) : list Node :=
  List.filter is_element (childNodes_of n).

Fixpoint lookup_attribute (name : string) (l : list (string * string))
    : option string :=
  match l with
  | [] => None
  | (k, v) :: l' => if bool_decide (k = name) then Some v else lookup_attribute name l'
  end.

(** [node.textContent]: the data of the text descendants, in tree order. *)
Fixpoint node_textContent (n : Node) : string :=
  match n with
  | Text d => d
  | Element _ _ cs =>
      (fix go (l : list Node) : string :=
         match l with
         | [] => EmptyString
         | c :: l' => node_textContent c +:+ go l'
         end) cs
  end.

(** Which [Document] object a node belongs to: the page the application
    runs in (the global [document]) or the document built by [DOMParser]. *)
Inductive Owner : Type := GlobalDocument | ParsedDocument.

#[global] Instance Owner_eq_dec : EqDecision Owner.
Proof. solve_decision. Defined.

(** An element object: a node of some document together with the chain of
    its ancestors. [Child parent i n] is the [i]-th element child of
    [parent]; a [Root] is a document element, whose [parentElement] is null. *)
Inductive Elem : Type :=
| Root (o : Owner) (n : Node)
| Child (parent : Elem) (i : nat) (n : Node).

Definition node (e : Elem) : Node :=
  match e with
  | Root _ n => n
  | Child _ _ n => n
  end.

Fixpoint owner (e : Elem) : Owner :=
  match e with
  | Root o _ => o
  | Child p _ _ => owner p
  end.

(** Position in the tree, innermost index first. *)
Fixpoint position (e : Elem) : list nat :=
  match e with
  | Root _ _ => []
  | Child p i _ => i :: position p
  end.

(** Object identity ([===]): the same place in the same document. *)
Definition same (a b : Elem) : bool :=
  bool_decide (owner a = owner b ∧ position a = position b).

Definition parentElement (e : Elem) : option Elem :=
  match e with
  | Root _ _ => None
  | Child p _ _ => Some p
  end.

Definition tagName (e : Elem) : string := node_tagName (node e).

Definition getAttribute (name : string) (e : Elem) : option string :=
  lookup_attribute name (node_attributes (node e)).

(** The [id] property reflects the attribute; it is empty when absent. *)
Definition id (e : Elem) : string := default EmptyString (getAttribute "id" e).

Definition textContent (e : Elem) : string := node_textContent (node e).

(** [element.children]. *)
Definition children (e : Elem) : list Elem :=
  imap (λ i c, Child e i c) (element_children (node e)).

Definition firstElementChild (e : Elem) : option Elem := children e !! 0.

Definition nextElementSibling (e : Elem) : option Elem :=
  match e with
  | Root _ _ => None
  | Child p i _ => children p !! S i
  end.

(** The element descendants of [n] in document order (pre-order); [e] is
    the element object of [n]. *)
Fixpoint descendants (n : Node) (e : Elem) : list Elem :=
  match n with
  | Text _ => []
  | Element _ _ cs =>
      (fix go (i : nat) (l : list Node) : list Elem :=
         match l with
         | [] => []
         | c :: l' =>
             match c with
             | Text _ => go i l'
             | Element _ _ _ =>
                 Child e i c :: descendants c (Child e i c) ++ go (S i) l'
             end
         end) 0 cs
  end.

(** [doc.querySelectorAll("*")] on the document whose root element is
    [root]. *)
Definition querySelectorAll_star (o : Owner) (root : Node) : list Elem :=
  match root with
  | Text _ => []
  | Element _ _ _ => Root o root :: descendants root (Root o root)
  end.

(** The type selector [label]: HTML elements report their name in upper
    case, foreign elements as written. *)
Definition is_label (e : Elem) : bool :=
  bool_decide (JS.toLowerCase (tagName e) = "label").

(** [e.querySelector("label")]: the first label among the descendants. *)
Definition querySelector_label (e : Elem) : option Elem :=
  List.find is_label (descendants (node e) e).

(** [doc.querySelector('label[for="' + CSS.escape(v) + '"]')]: the first
    label of the document whose [for] attribute is [v]. *)
Definition querySelector_label_for (o : Owner) (root : Node) (v : string)
    : option Elem :=
  List.find (λ e, is_label e && bool_decide (getAttribute "for" e = Some v))
    (querySelectorAll_star o root).

(** [e.closest("label")]: the nearest label among [e] and its ancestors. *)
Fixpoint closest_label (e : Elem) : option Elem :=
  if is_label e then Some e
  else match e with
       | Root _ _ => None
       | Child p _ _ => closest_label p
       end.

(** [document.body]: the first child of the [html] root that is a [body]
    or a [frameset]. *)
Definition body (o : Owner) (root : Node) : option Elem :=
  if bool_decide (JS.toLowerCase (node_tagName root) = "html")
  then List.find
         (λ c, JS.includes ["body"; "frameset"] (JS.toLowerCase (tagName c)))
         (children (Root o root))
  else None.

(** The descendants contributed by the child nodes [l] of the element
    object [e], the first element among them having index [i]. *)
Fixpoint descendants_list (e : Elem) (i : nat) (l : list Node) : list Elem :=
  match l with
  | [] => []
  | c :: l' =>
      match c with
      | Text _ => descendants_list e i l'
      | Element _ _ _ =>
          Child e i c :: descendants c (Child e i c) ++ descendants_list e (S i) l'
      end
  end.

(** Induction on a node with the hypothesis for every child node. *)
Fixpoint Node_nested_ind (P : Node → Prop)
    (HE : ∀ t a cs, Forall P cs → P (Element t a cs))
    (HT : ∀ d, P (Text d)) (n : Node) : P n :=
  match n with
  | Text d => HT d
  | Element t a cs =>
      HE t a cs
        ((fix all (l : list Node) : Forall P l :=
            match l with
            | [] => @List.Forall_nil Node P
            | c :: l' =>
                @List.Forall_cons Node P c l' (Node_nested_ind P HE HT c) (all l')
            end) cs)
  end.

End DOM.

(** ** The test data generator (src/pages/TestDataGenerator.tsx) *)

Module TestDataGenerator.

Import QArith_base Qround.

Local Open Scope nat_scope.

Local Notation "a ▷ f" := (f a) (at level 45, left associativity, only parsing).

Inductive DataType : Type :=
| TName | TEmail | TPhone | TAddress | TString | TUuid | TDate | TNumber.

(** The value of the type as the string the source uses for it. *)
Definition DataType_string (t : DataType) : string :=
  match t with
  | TName => "name"
  | TEmail => "email"
  | TPhone => "phone"
  | TAddress => "address"
  | TString => "string"
  | TUuid => "uuid"
  | TDate => "date"
  | TNumber => "number"
  end.

(** A cell: a string or a number. A finite number is a rational. *)
Inductive Value : Type :=
| Str (s : string)
| Num (q : Q).

(** A row: an object whose keys are kept in the order of insertion. *)
Definition GeneratedRow : Type := list (string * Value).

(** [row.key = v]. *)
Fixpoint assign (key : string) (v : Value) (row : GeneratedRow) : GeneratedRow :=
  match row with
  | [] => [(key, v)]
  | (k, w) :: rest =>
      if bool_decide (k = key) then (k, v) :: rest
      else (k, w) :: assign key v rest
  end.

(** [Object.keys(row)] and [row[key]]. *)
Definition keys (row : GeneratedRow) : list string := fst <$> row.

Fixpoint get (key : string) (row : GeneratedRow) : option Value :=
  match row with
  | [] => None
  | (k, w) :: rest => if bool_decide (k = key) then Some w else get key rest
  end.

(** The methods of the faker library the generator calls. *)
Inductive FakerCall : Type :=
| person_firstName | person_lastName | person_fullName
| internet_email | internet_username
| phone_number | location_countryCode
| location_streetAddress | location_city | location_state
| location_zipCode | location_country
| string_alphanumeric | word_sample
| string_uuid
| date_past | date_future | date_recent
| number_int | number_float.

(** The library as a source of values: what the [k]-th call made so far
    returns, as text or as a number. For the three date methods the text is
    the ISO string of the date. *)
Record Faker : Type := mkFaker {
  text : FakerCall → nat → string;
  number : FakerCall → nat → Q
}.

(** [s.split("T")[0]]: the part of [s] before its first T. *)
Fixpoint before_T (s : string) : string :=
  match s with
  | EmptyString => EmptyString
  | String c s' =>
      if bool_decide (c = "T"%char) then EmptyString else String c (before_T s')
  end.

(** The body of the switch: the fields of one row. [k] counts the calls to
    the library made before; the result carries the new count. *)
Definition fill_row (faker : Faker) (t : DataType) (k : nat)
    (row : GeneratedRow) : GeneratedRow * nat :=
  match t with
  | TName =>
      (row ▷ assign "firstName" (Str (text faker person_firstName k))
           ▷ assign "lastName" (Str (text faker person_lastName (k + 1)))
           ▷ assign "fullName" (Str (text faker person_fullName (k + 2))),
       k + 3)
  | TEmail =>
      (row ▷ assign "email" (Str (text faker internet_email k))
           ▷ assign "username" (Str (text faker internet_username (k + 1))),
       k + 2)
  | TPhone =>
      (row ▷ assign "phone" (Str (text faker phone_number k))
           ▷ assign "countryCode" (Str (text faker location_countryCode (k + 1))),
       k + 2)
  | TAddress =>
      (row ▷ assign "street" (Str (text faker location_streetAddress k))
           ▷ assign "city" (Str (text faker location_city (k + 1)))
           ▷ assign "state" (Str (text faker location_state (k + 2)))
           ▷ assign "zipCode" (Str (text faker location_zipCode (k + 3)))
           ▷ assign "country" (Str (text faker location_country (k + 4))),
       k + 5)
  | TString =>
      (row ▷ assign "randomString" (Str (text faker string_alphanumeric k))
           ▷ assign "word" (Str (text faker word_sample (k + 1))),
       k + 2)
  | TUuid =>
      (row ▷ assign "uuid" (Str (text faker string_uuid k)), k + 1)
  | TDate =>
      (row ▷ assign "pastDate" (Str (before_T (text faker date_past k)))
           ▷ assign "futureDate" (Str (before_T (text faker date_future (k + 1))))
           ▷ assign "recentDate" (Str (before_T (text faker date_recent (k + 2)))),
       k + 3)
  | TNumber =>
      (row ▷ assign "integer" (Num (number faker number_int k))
           ▷ assign "float" (Num (number faker number_float (k + 1))),
       k + 2)
  end.

(** [x < y] on numbers. *)
Definition lt (x y : Q) : bool := negb (Qle_bool y x).

Definition of_nat (i : nat) : Q := inject_Z (Z.of_nat i).

(** The loop [for (let i = 0; i < rowCount; i++)], from [i] on, with [data]
    the rows pushed so far. [fuel] bounds the number of iterations. *)
Fixpoint for_loop (faker : Faker) (t : DataType) (rowCount : Q)
    (fuel i k : nat) (data : list GeneratedRow) : list GeneratedRow :=
  match fuel with
  | 0 => data
  | S fuel' =>
      if lt (of_nat i) rowCount
      then
        let '(row, k') := fill_row faker t k [("id", Num (of_nat (i + 1)))] in
        for_loop faker t rowCount fuel' (S i) k' (data ++ [row])
      else data
  end.

(** The state of the component. [rowCount] is what the number input last
    reported: [None] stands for NaN. *)
Record State : Type := mkState {
  dataType : DataType;
  rowCount : option Q;
  generatedData : list GeneratedRow
}.

(** What the component shows and does. [Download] stands for the blob of
    the CSV offered under a file name through a clicked link. *)
Inductive Effect : Type :=
| ToastError (message : string)
| ToastSuccess (message : string)
| Download (filename csv : string)
| ClipboardWrite (csv : string).

(** [generateData]. [show] renders a number in a template literal and [k]
    counts the earlier calls to the library. After the check the count is
    at most 500, so 501 iterations are never reached. *)
Definition generateData (faker : Faker) (show : Q → string) (k : nat)
    (st : State) : State * list Effect :=
  match rowCount st with
  | None => (st, [ToastError "Please enter a number between 1 and 500"])
  | Some count =>
      if lt count (of_nat 1) || lt (of_nat 500) count
      then (st, [ToastError "Please enter a number between 1 and 500"])
      else
        (mkState (dataType st) (rowCount st)
           (for_loop faker (dataType st) count 501 0 k []),
         [ToastSuccess ("Generated " +:+ show count +:+ " rows of test data!")])
  end.

(** [downloadCSV]. [unparse] is [Papa.unparse] and [now] the rendering of
    [Date.now()]. *)
Definition downloadCSV (unparse : list GeneratedRow → string) (now : string)
    (st : State) : list Effect :=
  if bool_decide (length (generatedData st) = 0)
  then [ToastError "No data to download. Generate data first!"]
  else
    [Download
       ("test-data-" +:+ DataType_string (dataType st) +:+ "-" +:+ now +:+ ".csv")
       (unparse (generatedData st));
     ToastSuccess "CSV file downloaded!"].

(** [copyData]. *)
Definition copyData (unparse : list GeneratedRow → string) (st : State)
    : list Effect :=
  if bool_decide (length (generatedData st) = 0)
  then [ToastError "No data to copy. Generate data first!"]
  else
    [ClipboardWrite (unparse (generatedData st));
     ToastSuccess "Data copied to clipboard!"].

(** The columns of the table: the keys of the first row. *)
Definition columns (st : State) : list string :=
  match generatedData st with
  | [] => []
  | row :: _ => keys row
  end.

(** The fields the switch sets for a type of data, in order. *)
Definition field_names (t : DataType) : list string :=
  match t with
  | TName => ["firstName"; "lastName"; "fullName"]
  | TEmail => ["email"; "username"]
  | TPhone => ["phone"; "countryCode"]
  | TAddress => ["street"; "city"; "state"; "zipCode"; "country"]
  | TString => ["randomString"; "word"]
  | TUuid => ["uuid"]
  | TDate => ["pastDate"; "futureDate"; "recentDate"]
  | TNumber => ["integer"; "float"]
  end.

(** The rows of [m] iterations from [i] on. *)
Fixpoint rows_from (faker : Faker) (t : DataType) (m i k : nat)
    : list GeneratedRow :=
  match m with
  | 0 => []
  | S m' =>
      let '(row, k') := fill_row faker t k [("id", Num (of_nat (i + 1)))] in
      row :: rows_from faker t m' (S i) k'
  end.

(** The number of iterations for a count: the least integer not below it. *)
Definition iterations (count : Q) : nat := Z.to_nat (Qceiling count).

(** A library that always answers the same. *)
Definition constant_faker : Faker :=
  mkFaker (λ _ _, "2024-05-06T07:08:09.000Z") (λ _ _, inject_Z 7).

End TestDataGenerator.

(** ** The generator *)

Module XPathGenerator.

Import DOM.

Notation "a ▷ f" := (f a) (at level 45, left associativity, only parsing).

Record Selectors : Type := mkSelectors {
  xpath : list string;
  css : list string;
  testIds : list string
}.

Definition tag_of (e : Elem) : string := JS.toLowerCase (tagName e).

(** The loop of [getXPathTo] over [element.parentElement.children];
    [parent_path] is the path of the parent and [ix] the number of
    siblings with the element's tag name seen so far. *)
Fixpoint sibling_loop (element : Elem) (parent_path : string)
    (siblings : list Elem) (ix : nat) : string :=
  match siblings with
  | [] => "/" +:+ tag_of element
  | sibling :: rest =>
      if same sibling element
      then parent_path +:+ "/" +:+ tag_of element +:+ "[" +:+ JS.of_nat (ix + 1) +:+ "]"
      else sibling_loop element parent_path rest
             (if bool_decide (tagName sibling = tagName element) then S ix else ix)
  end.

(** [getXPathTo(element)]. [document_body] is the value of the global
    [document.body] the function compares the element with. *)
Fixpoint getXPathTo (document_body : option Elem) (element : Elem) : string :=
  if JS.truthy (id element) then "//*[@id='" +:+ id element +:+ "']"
  else if bool_decide (tag_of element = "html") then "/html"
  else if from_option (λ b, same element b) false document_body then "/html/body"
  else match element with
       | Root _ _ => "/" +:+ tag_of element
       | Child parent _ _ =>
           sibling_loop element (getXPathTo document_body parent)
             (children parent) 0
       end.

(** The double quote, as a character and as a one-character string. *)
Definition dq : ascii := "034".
Definition DQ : string := String dq EmptyString.

Definition escapeXpathText (s : string) : string :=
  if negb (JS.contains_char "'" s) then "'" +:+ s +:+ "'"
  else if negb (JS.contains_char dq s) then DQ +:+ s +:+ DQ
  else "concat('"
       +:+ JS.replace_char "'" ("'," +:+ DQ +:+ "'" +:+ DQ +:+ ",'") s
       +:+ "')".

Definition escapeCssAttr (val : string) : string :=
  let escaped :=
    JS.replace_char dq ("\" +:+ DQ) (JS.replace_char "\" "\\" val) in
  DQ +:+ escaped +:+ DQ.

Definition STABLE_ATTRIBUTES : list string :=
  ["name"; "placeholder"; "type"; "role"; "aria-label"; "alt"; "href"; "src"].

Definition TEST_ID_ATTRIBUTES : list string :=
  ["data-testid"; "data-cy"; "data-qa"; "data-test"].

Definition SKIPPED_TAGS : list string :=
  ["html"; "head"; "body"; "script"; "style"; "meta"; "title"].

(** The three arrays the callback of [forEach] pushes to. *)
Record Acc : Type := mkAcc {
  xpaths : list string;
  cssSelectors : list string;
  dataTestIdSelectors : list string
}.

Definition no_candidates : Acc := mkAcc [] [] [].

Definition push_xpath (s : string) (a : Acc) : Acc :=
  mkAcc (xpaths a ++ [s]) (cssSelectors a) (dataTestIdSelectors a).

Definition push_css (s : string) (a : Acc) : Acc :=
  mkAcc (xpaths a) (cssSelectors a ++ [s]) (dataTestIdSelectors a).

Definition push_testId (s : string) (a : Acc) : Acc :=
  mkAcc (xpaths a) (cssSelectors a) (dataTestIdSelectors a ++ [s]).

(** The text of a label as the rules use it. *)
Definition label_text (l : Elem) : string :=
  JS.collapse_spaces (JS.trim (textContent l)).

Definition has_text (l : Elem) : bool := JS.truthy (JS.trim (textContent l)).

Definition testid_xpath (tag attr value : string) : string :=
  "//" +:+ tag +:+ "[@" +:+ attr +:+ "=" +:+ escapeXpathText value +:+ "]".

Definition testid_css (tag attr value : string) : string :=
  tag +:+ "[" +:+ attr +:+ "=" +:+ escapeCssAttr value +:+ "]".

(** 1. One test-id attribute. *)
Definition test_id_rule (el : Elem) (tag : string) (a : Acc) (attr : string) : Acc :=
  match getAttribute attr el with
  | Some value =>
      if JS.truthy value
      then a ▷ push_xpath (testid_xpath tag attr value)
             ▷ push_css (testid_css tag attr value)
             ▷ push_testId (testid_css tag attr value)
      else a
  | None => a
  end.

(** 2. The id. *)
Definition id_rule (tag : string) (id : option string) (a : Acc) : Acc :=
  match id with
  | Some i =>
      if JS.truthy i
      then a ▷ push_xpath ("//" +:+ tag +:+ "[@id=" +:+ escapeXpathText i +:+ "]")
             ▷ push_css (tag +:+ "#" +:+ CSS.escape i)
      else a
  | None => a
  end.

(** 3. Labels of form fields: a label pointing at the id, an enclosing
    label, and a label that is the previous sibling. *)
Definition linked_label_rule (doc : Node) (tag : string) (id : option string)
    (a : Acc) : Acc :=
  match id with
  | Some i =>
      if JS.truthy i
      then match querySelector_label_for ParsedDocument doc i with
           | Some linkedLabel =>
               if has_text linkedLabel
               then a ▷ push_xpath
                          ("//" +:+ tag +:+ "[@id=//label[normalize-space(text())="
                           +:+ escapeXpathText (label_text linkedLabel) +:+ "]/@for]")
               else a
           | None => a
           end
      else a
  | None => a
  end.

Definition parent_label_rule (el : Elem) (tag : string) (a : Acc) : Acc :=
  match closest_label el with
  | Some parentLabel =>
      if has_text parentLabel
      then a ▷ push_xpath
                 ("//label[normalize-space(text())="
                  +:+ escapeXpathText (label_text parentLabel) +:+ "]//" +:+ tag)
             ▷ push_css ("label:has(" +:+ tag +:+ ")")
      else a
  | None => a
  end.

Definition sibling_label_xpath (tag text : string) : string :=
  "//label[normalize-space(text())=" +:+ escapeXpathText text
  +:+ "]/following-sibling::" +:+ tag.

Definition sibling_label_rule (el : Elem) (tag : string) (a : Acc) : Acc :=
  match parentElement el ≫= querySelector_label with
  | Some siblingLabel =>
      if has_text siblingLabel
         && from_option (λ n, same n el) false (nextElementSibling siblingLabel)
      then a ▷ push_xpath (sibling_label_xpath tag (label_text siblingLabel))
      else a
  | None => a
  end.

Definition label_rules (doc : Node) (el : Elem) (tag : string)
    (id : option string) (a : Acc) : Acc :=
  if JS.includes ["input"; "textarea"; "select"] tag
  then a ▷ linked_label_rule doc tag id
         ▷ parent_label_rule el tag
         ▷ sibling_label_rule el tag
  else a.

Definition text_exact_xpath (tag text : string) : string :=
  "//" +:+ tag +:+ "[normalize-space(text())=" +:+ escapeXpathText text +:+ "]".

Definition text_contains_xpath (tag text : string) : string :=
  "//" +:+ tag +:+ "[contains(normalize-space(text()), "
  +:+ escapeXpathText text +:+ ")]".

(** 4. The text of a leaf element. *)
Definition text_rule (el : Elem) (tag text : string) (a : Acc) : Acc :=
  if JS.includes ["button"; "a"; "div"; "span"; "h1"; "h2"; "h3"; "p"; "legend"] tag
     && JS.truthy text
     && bool_decide (String.length text < 50)
     && bool_decide (firstElementChild el = None)
  then a ▷ push_xpath (text_exact_xpath tag text)
         ▷ push_xpath (text_contains_xpath tag text)
  else a.

(** 5. One stable attribute. *)
Definition stable_attribute_rule (el : Elem) (tag : string) (a : Acc)
    (attr : string) : Acc :=
  match getAttribute attr el with
  | Some value =>
      if JS.truthy value
      then a ▷ push_xpath ("//" +:+ tag +:+ "[@" +:+ attr +:+ "="
                           +:+ escapeXpathText value +:+ "]")
             ▷ push_css (tag +:+ "[" +:+ attr +:+ "=" +:+ escapeCssAttr value +:+ "]")
      else a
  | None => a
  end.

(** 6. The absolute path. [getXPathTo] raises nothing, so the handler
    around the call never runs. *)
Definition absolute_rule (document_body : option Elem) (el : Elem)
    (tag : string) (a : Acc) : Acc :=
  if JS.includes ["input"; "button"; "a"; "select"; "textarea"] tag
  then a ▷ push_xpath (getXPathTo document_body el)
  else a.

(** The rules applied to an element that is inspected, in the order of
    the source. [document_body] is the global [document.body]; [doc] is the
    root of the parsed document. *)
Definition rules (document_body : option Elem) (doc : Node) (el : Elem)
    (a : Acc) : Acc :=
  let tag := tag_of el in
  let id := getAttribute "id" el in
  let text := JS.collapse_spaces (JS.trim (textContent el)) in
  a ▷ (λ a, fold_left (test_id_rule el tag) TEST_ID_ATTRIBUTES a)
    ▷ id_rule tag id
    ▷ label_rules doc el tag id
    ▷ text_rule el tag text
    ▷ (λ a, fold_left (stable_attribute_rule el tag) STABLE_ATTRIBUTES a)
    ▷ absolute_rule document_body el tag.

(** The callback of [elements.forEach]. [document] is the root of the page
    the application runs in. *)
Definition callback (document doc : Node) (el : Elem) (index : nat)
    (a : Acc) : Acc :=
  if bool_decide (100 ≤ index) then a
  else if JS.includes SKIPPED_TAGS (tag_of el) then a
  else rules (body GlobalDocument document) doc el a.

Definition elements_of (doc : Node) : list Elem :=
  querySelectorAll_star ParsedDocument doc.

(** The arrays after the loop. *)
Definition collect (document doc : Node) : Acc :=
  JS.forEach (callback document doc) (elements_of doc) no_candidates.

Definition NO_TEST_IDS : string := "No data-test* attributes found".

Definition unique (xs : list string) : list string :=
  JS.Array_from (JS.new_Set xs).

Definition selectors_of (a : Acc) : Selectors :=
  {| xpath := unique (xpaths a);
     css := unique (cssSelectors a);
     testIds := unique (if bool_decide (length (dataTestIdSelectors a) ≠ 0)
                        then dataTestIdSelectors a
                        else [NO_TEST_IDS]) |}.

(** The result for a parsed document. *)
Definition synthesize (document doc : Node) : Selectors :=
  selectors_of (collect document doc).

(** What the component shows and does, in order. *)
Inductive Effect : Type :=
| ToastError (message : string)
| ToastSuccess (message : string)
| ParseFromString (markup : string)
| ConsoleError (message : string).

Record State : Type := mkState {
  html : string;
  selectors : option Selectors
}.

(** [generateSelectors]. [parseFromString] is the browser's
    [DOMParser.parseFromString(_, "text/html")], with [None] for a raised
    exception; [document] is the root of the page. *)
Definition generateSelectors (parseFromString : string → option Node)
    (document : Node) (st : State) : State * list Effect :=
  if negb (JS.truthy (JS.trim (html st)))
  then (st, [ToastError "Please enter some HTML first"])
  else
    match parseFromString (html st) with
    | Some doc =>
        (mkState (html st) (Some (synthesize document doc)),
         [ParseFromString (html st);
          ToastSuccess "Advanced selectors generated successfully!"])
    | None =>
        (st,
         [ParseFromString (html st);
          ConsoleError "Selector generation failed:";
          ToastError "Failed to analyze HTML. Please check your input."])
    end.


(** ** Notions used to state the properties *)

(** Two triples of arrays, one after the other. *)
Definition acc_app (a b : Acc) : Acc :=
  mkAcc (xpaths a ++ xpaths b) (cssSelectors a ++ cssSelectors b)
    (dataTestIdSelectors a ++ dataTestIdSelectors b).

(** A step of the callback that pushes a fixed list of XPaths and a fixed
    list of CSS selectors, and leaves the test-id array alone. *)
Definition Quiet (f : Acc → Acc) : Prop :=
  ∃ xs cs, ∀ a,
    f a = mkAcc (xpaths a ++ xs) (cssSelectors a ++ cs) (dataTestIdSelectors a).

(** The rules that follow the test-id rule. *)
Definition later_rules (document_body : option Elem) (doc : Node) (el : Elem)
    (a : Acc) : Acc :=
  a ▷ id_rule (tag_of el) (getAttribute "id" el)
    ▷ label_rules doc el (tag_of el) (getAttribute "id" el)
    ▷ text_rule el (tag_of el) (JS.collapse_spaces (JS.trim (textContent el)))
    ▷ (λ a, fold_left (stable_attribute_rule el (tag_of el)) STABLE_ATTRIBUTES a)
    ▷ absolute_rule document_body el (tag_of el).

(** The test-id attribute [attr] of [el], when present and not empty. *)
Definition test_id_value (el : Elem) (attr : string) : list string :=
  match getAttribute attr el with
  | Some value => if JS.truthy value then [value] else []
  | None => []
  end.

(** The XPaths and the CSS selectors the test-id rule builds for [el], in
    the order of [TEST_ID_ATTRIBUTES]. *)
Definition test_id_xpaths_for (el : Elem) (attrs : list string) : list string :=
  attr ← attrs; testid_xpath (tag_of el) attr <$> test_id_value el attr.

Definition test_id_candidates_for (el : Elem) (attrs : list string) : list string :=
  attr ← attrs; testid_css (tag_of el) attr <$> test_id_value el attr.

Definition test_id_candidates_of (el : Elem) : list string :=
  test_id_candidates_for el TEST_ID_ATTRIBUTES.

(** The elements the rules are applied to: those among the first hundred
    of the traversal whose tag is not skipped. *)
Definition inspected (doc : Node) : list Elem :=
  filter (λ el, tag_of el ∉ SKIPPED_TAGS) (take 100 (elements_of doc)).

(** The test-id selectors of the whole document, in emission order. *)
Definition test_id_candidates (doc : Node) : list string :=
  inspected doc ≫= test_id_candidates_of.

(** What one element adds to the three arrays when visited at [index]. *)
Definition contribution (document doc : Node) (el : Elem) (index : nat) : Acc :=
  callback document doc el index no_candidates.

(** [x] is first pushed to [raw] at position [i]. *)
Definition first_emission (raw : list string) (x : string) (i : nat) : Prop :=
  raw !! i = Some x ∧ ∀ k, k < i → raw !! k ≠ Some x.

(** [out] lists the strings of [raw] once each, in the order in which they
    were first pushed. *)
Definition first_seen_order (raw out : list string) : Prop :=
  NoDup out ∧
  (∀ x, x ∈ out ↔ x ∈ raw) ∧
  (∀ i j x y, out !! i = Some x → out !! j = Some y → i < j →
     ∃ i' j', first_emission raw x i' ∧ first_emission raw y j' ∧ i' < j').

(** The array handed to [new Set] for the test-id category. *)
Definition testId_source (a : Acc) : list string :=
  if bool_decide (length (dataTestIdSelectors a) ≠ 0)
  then dataTestIdSelectors a
  else [NO_TEST_IDS].

(** The tree the HTML parser builds around a fragment: the root [html]
    with its [head] and [body]. *)
Definition head_of (head_children : list Node) : Node :=
  Element "HEAD" [] head_children.

Definition body_of (body_children : list Node) : Node :=
  Element "BODY" [] body_children.

Definition wrapped (head_children body_children : list Node) : Node :=
  Element "HTML" [] [head_of head_children; body_of body_children].

(** A page for the application itself; any page does. *)
Definition app_page : Node :=
  wrapped [] [Element "DIV" [("id", "root")] []].

(** A document that is not a page of elements at all: it has no body. *)
Definition blank_page : Node := Text EmptyString.

(** The parsed documents of the markup named in each comment. *)

(** <input> *)
Definition lone_input : Node := wrapped [] [Element "INPUT" [] []].

(** <input id="it's"> *)
Definition quoted_id_input : Node :=
  wrapped [] [Element "INPUT" [("id", "it's")] []].

(** <div>Hello "World"</div> *)
Definition hello_world : Node :=
  wrapped [] [Element "DIV" [] [Text ("Hello " +:+ DQ +:+ "World" +:+ DQ)]].

(** <html><head></head><body><p id="a">Hi</p></body></html> *)
Definition paragraph : Node :=
  wrapped [] [Element "P" [("id", "a")] [Text "Hi"]].

(** <label>A</label><input><label>B</label><input> *)
Definition two_labelled_inputs : Node :=
  wrapped []
    [Element "LABEL" [] [Text "A"]; Element "INPUT" [] [];
     Element "LABEL" [] [Text "B"]; Element "INPUT" [] []].

(** <input id="user" data-testid="user-input" placeholder="Enter name"> *)
Definition user_input_node : Node :=
  Element "INPUT"
    [("id", "user"); ("data-testid", "user-input");
     ("placeholder", "Enter name")] [].

Definition user_input : Node := wrapped [] [user_input_node].


(** [t] occurs somewhere in [s]. *)
Fixpoint occurs (t s : string) : bool :=
  String.prefix t s ||
  match s with
  | EmptyString => false
  | String _ s' => occurs t s'
  end.

(** Every character of [s] is white space (so also when [s] is empty). *)
Fixpoint whitespace_only (s : string) : bool :=
  match s with
  | EmptyString => true
  | String c s' => JS.is_space c && whitespace_only s'
  end.


(** What the rules push for one element, category by category. *)
Definition xpaths_of (db : option Elem) (doc : Node) (el : Elem) : list string :=
  xpaths (rules db doc el no_candidates).

Definition css_of (db : option Elem) (doc : Node) (el : Elem) : list string :=
  cssSelectors (rules db doc el no_candidates).

(** The element objects of the three wrappers of a parsed fragment. *)
Definition html_element (h b : list Node) : Elem :=
  Root ParsedDocument (wrapped h b).

Definition head_element (h b : list Node) : Elem :=
  Child (html_element h b) 0 (head_of h).

Definition body_element (h b : list Node) : Elem :=
  Child (html_element h b) 1 (body_of b).

(** <link href="s0.css"> ... <link href="s97.css">: the parser puts the 98
    links in head. *)
Definition many_links : Node :=
  wrapped
    (imap (λ i _, Element "LINK" [("href", "s" +:+ JS.of_nat i +:+ ".css")] [])
       (replicate 98 ()))
    [].

(** <frameset> with 120 <frame> in it: the parser makes no body, the
    frameset is the second child of html. *)
Definition frameset_page : Node :=
  Element "HTML" []
    [head_of []; Element "FRAMESET" [] (replicate 120 (Element "FRAME" [] []))].

(** <div>x</div>, 120 times. *)
Definition many_divs : Node :=
  wrapped [] (replicate 120 (Element "DIV" [] [Text "x"])).



(** An XPath that starts at the root or anywhere below it. *)
Definition rooted (s : string) : Prop := ∃ t, s = String "/" t.



(** The parsed documents of further markup. *)

(** <label for="em">Email</label><input id="em" name="email"> *)
Definition email_label_node : Node :=
  Element "LABEL" [("for", "em")] [Text "Email"].

Definition email_input_node : Node :=
  Element "INPUT" [("id", "em"); ("name", "email")] [].

Definition email_form : Node := wrapped [] [email_label_node; email_input_node].











(** The arguments of the concat() form: the stretches of the text between
    its single quotes, and the single quotes themselves. *)
Inductive Piece : Type :=
| Segment (t : string)
| Apostrophe.

(** The XPath literal written for a piece, the string it denotes, and what
    makes the literal well formed. *)
Definition piece_literal (p : Piece) : string :=
  match p with
  | Segment t => "'" +:+ t +:+ "'"
  | Apostrophe => DQ +:+ "'" +:+ DQ
  end.

Definition piece_value (p : Piece) : string :=
  match p with
  | Segment t => t
  | Apostrophe => "'"
  end.

Definition well_quoted (p : Piece) : Prop :=
  match p with
  | Segment t => JS.contains_char "'" t = false
  | Apostrophe => True
  end.

Fixpoint pieces (s : string) : list Piece :=
  match s with
  | EmptyString => [Segment EmptyString]
  | String c s' =>
      if bool_decide (c = "'"%char)
      then Segment EmptyString :: Apostrophe :: pieces s'
      else match pieces s' with
           | Segment t :: rest => Segment (String c t) :: rest
           | rest => Segment (String c EmptyString) :: rest
           end
  end.

Fixpoint join_comma (l : list string) : string :=
  match l with
  | [] => EmptyString
  | x :: rest =>
      x +:+ match rest with
            | [] => EmptyString
            | _ :: _ => "," +:+ join_comma rest
            end
  end.

Fixpoint concat_strings (l : list string) : string :=
  match l with
  | [] => EmptyString
  | x :: rest => x +:+ concat_strings rest
  end.

(** A step of the callback that pushes at most [n] XPaths, all of them
    with the property [P], and at most [m] CSS selectors, and leaves the
    test-id array alone. *)
Definition Emits (P : string → Prop) (n m : nat) (f : Acc → Acc) : Prop :=
  ∃ xs cs,
    Forall P xs ∧ length xs ≤ n ∧ length cs ≤ m ∧
    ∀ a, f a = mkAcc (xpaths a ++ xs) (cssSelectors a ++ cs)
                 (dataTestIdSelectors a).

(** * Properties *)

(** ** Sets in insertion order *)

Lemma new_Set_snoc (xs : list string) (x : string) :
  JS.new_Set (xs ++ [x]) = JS.Set_add (JS.new_Set xs) x.
Proof. unfold JS.new_Set. by rewrite fold_left_app. Qed.

Lemma first_emission_app (raw t : list string) (x : string) (i : nat) :
  first_emission raw x i → first_emission (raw ++ t) x i.
Proof.
  intros [Hi Hk]. split.
  - by apply lookup_app_l_Some.
  - intros k Hlt. pose proof (lookup_lt_Some _ _ _ Hi) as Hlen.
    rewrite lookup_app_l by lia. by apply Hk.
Qed.

Lemma first_emission_exists (raw : list string) (x : string) :
  x ∈ raw → ∃ i, first_emission raw x i.
Proof.
  induction raw as [|y raw IH]; intros Hin.
  - by apply elem_of_nil in Hin.
  - destruct (decide (y = x)) as [->|Hne].
    + exists 0. split; [done|]. intros k Hk. lia.
    + apply elem_of_cons in Hin as [->|Hin]; [done|].
      destruct (IH Hin) as (i & Hi & Hk). exists (S i). split; [done|].
      intros [|k] Hlt; simpl; [congruence|]. apply Hk. lia.
Qed.

Lemma first_emission_fresh (raw : list string) (x : string) :
  x ∉ raw → first_emission (raw ++ [x]) x (length raw).
Proof.
  intros Hnot. split.
  - by rewrite list_lookup_middle.
  - intros k Hlt Hk. rewrite lookup_app_l in Hk by done.
    apply Hnot. by eapply list_elem_of_lookup_2.
Qed.

Lemma unique_first_seen (raw : list string) : first_seen_order raw (unique raw).
Proof.
  unfold unique, JS.Array_from.
  induction raw as [|x raw (Hnd & Hin & Hord)] using rev_ind.
  - split_and!; [constructor|done|]. intros i j x y Hi. by destruct i.
  - rewrite new_Set_snoc. unfold JS.Set_add. case_bool_decide as Hx.
    + split; [done|]. split.
      * intros y. rewrite Hin, elem_of_app, list_elem_of_singleton.
        split; [by left|]. intros [?| ->]; [done|]. by apply Hin.
      * intros i j a b Hi Hj Hlt.
        destruct (Hord i j a b Hi Hj Hlt) as (i' & j' & Ha & Hb & Hlt').
        exists i', j'. split_and!; [by apply first_emission_app..|done].
    + assert (x ∉ raw) as Hraw by (by rewrite <- Hin).
      split; [|split].
      * apply NoDup_app. split_and!; [done| |apply NoDup_singleton].
        intros y Hy ->%list_elem_of_singleton. done.
      * intros y. rewrite !elem_of_app, Hin. done.
      * intros i j a b Hi Hj Hlt.
        destruct (decide (j < length (JS.new_Set raw))) as [Hj'|Hj'].
        -- rewrite lookup_app_l in Hi by lia. rewrite lookup_app_l in Hj by done.
           destruct (Hord i j a b Hi Hj Hlt) as (i' & j' & Ha & Hb & Hlt').
           exists i', j'. split_and!; [by apply first_emission_app..|done].
        -- pose proof (lookup_lt_Some _ _ _ Hj) as Hlen.
           rewrite length_app in Hlen. simpl in Hlen.
           assert (j = length (JS.new_Set raw)) as -> by lia.
           rewrite list_lookup_middle in Hj by done. injection Hj as <-.
           rewrite lookup_app_l in Hi by done.
           assert (a ∈ raw) as Ha.
           { apply Hin. by eapply list_elem_of_lookup_2. }
           destruct (first_emission_exists raw a Ha) as (i' & Hi').
           exists i', (length raw). split_and!.
           ++ by apply first_emission_app.
           ++ by apply first_emission_fresh.
           ++ destruct Hi' as [Hi' _]. by eapply lookup_lt_Some.
Qed.

(** C4. Each of the three output lists has no repeated string, holds
    exactly the strings pushed for its category, and lists them in the
    order in which they were first pushed. *)
Theorem C4_outputs_unique_in_first_seen_order (document doc : Node) :
  let a := collect document doc in
  let r := synthesize document doc in
  first_seen_order (xpaths a) (xpath r) ∧
  first_seen_order (cssSelectors a) (css r) ∧
  first_seen_order (testId_source a) (testIds r).
Proof.
  cbv zeta. unfold synthesize, selectors_of. cbn [xpath css testIds].
  split_and!; apply unique_first_seen.
Qed.

(** ** The shape of what the rules push *)

Lemma Quiet_id : Quiet (λ a, a).
Proof. exists [], []. intros [x c t]. simpl. by rewrite !app_nil_r. Qed.

Lemma Quiet_push_xpath (f : Acc → Acc) (s : string) :
  Quiet f → Quiet (λ a, push_xpath s (f a)).
Proof.
  intros (xs & cs & H). exists (xs ++ [s]), cs. intros a.
  rewrite H. unfold push_xpath. simpl. by rewrite app_assoc.
Qed.

Lemma Quiet_push_css (f : Acc → Acc) (s : string) :
  Quiet f → Quiet (λ a, push_css s (f a)).
Proof.
  intros (xs & cs & H). exists xs, (cs ++ [s]). intros a.
  rewrite H. unfold push_css. simpl. by rewrite app_assoc.
Qed.

Lemma Quiet_compose (f g : Acc → Acc) :
  Quiet f → Quiet g → Quiet (λ a, g (f a)).
Proof.
  intros (xs & cs & Hf) (xs' & cs' & Hg). exists (xs ++ xs'), (cs ++ cs').
  intros a. rewrite Hg, Hf. simpl. by rewrite !app_assoc.
Qed.

Lemma Quiet_fold {A : Type} (step : Acc → A → Acc) (l : list A) :
  (∀ x, Quiet (λ a, step a x)) → Quiet (λ a, fold_left step l a).
Proof.
  intros Hstep. induction l as [|x l IH] using rev_ind.
  - apply Quiet_id.
  - eapply (Quiet_compose _ (λ a, step a x)) in IH; [|apply Hstep].
    destruct IH as (xs & cs & H). exists xs, cs. intros a.
    rewrite fold_left_app. apply H.
Qed.

Ltac quiet :=
  repeat first
    [ apply Quiet_id
    | apply Quiet_push_xpath
    | apply Quiet_push_css
    | case_match ].

Lemma Quiet_id_rule (tag : string) (i : option string) : Quiet (id_rule tag i).
Proof. unfold id_rule. quiet. Qed.

Lemma Quiet_label_rules (doc : Node) (el : Elem) (tag : string)
    (i : option string) : Quiet (label_rules doc el tag i).
Proof.
  unfold label_rules. case_match; [|apply Quiet_id].
  apply (Quiet_compose (λ a, parent_label_rule el tag (linked_label_rule doc tag i a))
           (sibling_label_rule el tag)).
  - apply (Quiet_compose (linked_label_rule doc tag i) (parent_label_rule el tag)).
    + unfold linked_label_rule. quiet.
    + unfold parent_label_rule. quiet.
  - unfold sibling_label_rule. quiet.
Qed.

Lemma Quiet_text_rule (el : Elem) (tag text : string) :
  Quiet (text_rule el tag text).
Proof. unfold text_rule. quiet. Qed.

Lemma Quiet_stable_attribute_rule (el : Elem) (tag attr : string) :
  Quiet (λ a, stable_attribute_rule el tag a attr).
Proof. unfold stable_attribute_rule. quiet. Qed.

Lemma Quiet_absolute_rule (db : option Elem) (el : Elem) (tag : string) :
  Quiet (absolute_rule db el tag).
Proof. unfold absolute_rule. quiet. Qed.

Lemma Quiet_later_rules (db : option Elem) (doc : Node) (el : Elem) :
  Quiet (later_rules db doc el).
Proof.
  unfold later_rules.
  apply (Quiet_compose _ (absolute_rule db el (tag_of el)));
    [|apply Quiet_absolute_rule].
  apply (Quiet_compose _
           (λ a, fold_left (stable_attribute_rule el (tag_of el)) STABLE_ATTRIBUTES a));
    [|apply Quiet_fold, Quiet_stable_attribute_rule].
  apply (Quiet_compose _ (text_rule el (tag_of el) _)); [|apply Quiet_text_rule].
  apply (Quiet_compose _ (label_rules doc el (tag_of el) _));
    [|apply Quiet_label_rules].
  apply Quiet_id_rule.
Qed.


Ltac fields :=
  cbn [xpaths cssSelectors dataTestIdSelectors xpath css testIds].

Lemma test_id_fold (el : Elem) (l : list string) (a : Acc) :
  fold_left (test_id_rule el (tag_of el)) l a
  = mkAcc (xpaths a ++ test_id_xpaths_for el l)
      (cssSelectors a ++ test_id_candidates_for el l)
      (dataTestIdSelectors a ++ test_id_candidates_for el l).
Proof.
  revert a. induction l as [|attr l IH]; intros [x c t].
  - simpl. by rewrite !app_nil_r.
  - cbn [fold_left]. rewrite IH.
    unfold test_id_xpaths_for, test_id_candidates_for.
    rewrite !bind_cons. unfold test_id_rule, test_id_value.
    destruct (getAttribute attr el) as [value|]; [|done].
    destruct (JS.truthy value); [|done].
    simpl. by rewrite <- !app_assoc.
Qed.

Lemma rules_split (db : option Elem) (doc : Node) (el : Elem) (a : Acc) :
  rules db doc el a
  = later_rules db doc el
      (fold_left (test_id_rule el (tag_of el)) TEST_ID_ATTRIBUTES a).
Proof. reflexivity. Qed.

Lemma rules_shape (db : option Elem) (doc : Node) (el : Elem) :
  ∃ xs cs, ∀ a,
    rules db doc el a
    = mkAcc (xpaths a ++ test_id_xpaths_for el TEST_ID_ATTRIBUTES ++ xs)
        (cssSelectors a ++ test_id_candidates_of el ++ cs)
        (dataTestIdSelectors a ++ test_id_candidates_of el).
Proof.
  destruct (Quiet_later_rules db doc el) as (xs & cs & H). exists xs, cs.
  intros a.
  rewrite rules_split, H, test_id_fold. fields. unfold test_id_candidates_of.
  by rewrite <- !app_assoc.
Qed.

Lemma fold_rules_shape (db : option Elem) (doc : Node) (l : list Elem) :
  ∃ xs cs,
    (∀ a, fold_left (λ a el, rules db doc el a) l a
          = mkAcc (xpaths a ++ xs) (cssSelectors a ++ cs)
              (dataTestIdSelectors a ++ (l ≫= test_id_candidates_of))) ∧
    (∀ el s, el ∈ l →
       (s ∈ test_id_xpaths_for el TEST_ID_ATTRIBUTES → s ∈ xs) ∧
       (s ∈ test_id_candidates_of el → s ∈ cs)).
Proof.
  induction l as [|el l (xs & cs & Hfold & Hin)].
  - exists [], []. split.
    + intros [x c t]. simpl. by rewrite !app_nil_r.
    + intros el s Hel. by apply elem_of_nil in Hel.
  - destruct (rules_shape db doc el) as (ex & ec & Hel).
    exists ((test_id_xpaths_for el TEST_ID_ATTRIBUTES ++ ex) ++ xs),
      ((test_id_candidates_of el ++ ec) ++ cs).
    split.
    + intros a. cbn [fold_left]. rewrite Hfold, Hel. fields. rewrite bind_cons.
      by rewrite <- !app_assoc.
    + intros el' s [->|Hel']%elem_of_cons.
      * rewrite !elem_of_app. tauto.
      * destruct (Hin el' s Hel'). rewrite !elem_of_app. tauto.
Qed.

Lemma rules_test_ids (db : option Elem) (doc : Node) (el : Elem) :
  dataTestIdSelectors (rules db doc el no_candidates) = test_id_candidates_of el.
Proof. destruct (rules_shape db doc el) as (xs & cs & H). by rewrite H. Qed.

Lemma rules_appends (db : option Elem) (doc : Node) (el : Elem) (a : Acc) :
  rules db doc el a
  = mkAcc (xpaths a ++ xpaths_of db doc el) (cssSelectors a ++ css_of db doc el)
      (dataTestIdSelectors a ++ test_id_candidates_of el).
Proof.
  unfold xpaths_of, css_of. destruct (rules_shape db doc el) as (xs & cs & H).
  by rewrite (H a), (H no_candidates).
Qed.

Lemma fold_rules_exact (db : option Elem) (doc : Node) (l : list Elem) (a : Acc) :
  fold_left (λ a el, rules db doc el a) l a
  = mkAcc (xpaths a ++ (l ≫= xpaths_of db doc))
      (cssSelectors a ++ (l ≫= css_of db doc))
      (dataTestIdSelectors a ++ (l ≫= test_id_candidates_of)).
Proof.
  revert a. induction l as [|el l IH]; intros a.
  - destruct a. cbn. by rewrite !app_nil_r.
  - cbn [fold_left]. rewrite IH, rules_appends. fields.
    by rewrite !bind_cons, <- !app_assoc.
Qed.

(** ** The loop over the elements *)

Lemma callback_beyond_cap (document doc : Node) (el : Elem) (index : nat)
    (a : Acc) :
  100 ≤ index → callback document doc el index a = a.
Proof. intros H. unfold callback. by rewrite bool_decide_eq_true_2. Qed.

Lemma callback_skipped (document doc : Node) (el : Elem) (index : nat)
    (a : Acc) :
  tag_of el ∈ SKIPPED_TAGS → callback document doc el index a = a.
Proof.
  intros H. unfold callback, JS.includes. case_bool_decide; [done|].
  by rewrite bool_decide_eq_true_2.
Qed.

Lemma callback_inspected (document doc : Node) (el : Elem) (index : nat)
    (a : Acc) :
  index < 100 → tag_of el ∉ SKIPPED_TAGS →
  callback document doc el index a = rules (body GlobalDocument document) doc el a.
Proof.
  intros Hi Ht. unfold callback, JS.includes.
  rewrite bool_decide_eq_false_2 by lia. by rewrite bool_decide_eq_false_2.
Qed.

Lemma forEach_callback (document doc : Node) (l : list Elem) (i : nat) (a : Acc) :
  JS.forEach_from (callback document doc) i l a
  = fold_left (λ a el, rules (body GlobalDocument document) doc el a)
      (filter (λ el, tag_of el ∉ SKIPPED_TAGS) (take (100 - i) l)) a.
Proof.
  revert i a. induction l as [|el l IH]; intros i a.
  - by rewrite take_nil.
  - simpl. rewrite IH. destruct (decide (100 ≤ i)) as [Hi|Hi].
    + rewrite callback_beyond_cap by done.
      replace (100 - i) with 0 by lia. replace (100 - S i) with 0 by lia.
      by rewrite !take_0.
    + replace (100 - i) with (S (100 - S i)) by lia. simpl.
      destruct (decide (tag_of el ∈ SKIPPED_TAGS)) as [Ht|Ht].
      * rewrite callback_skipped by done. rewrite filter_cons_False; [done|].
        by intros [].
      * rewrite callback_inspected by (done || lia).
        by rewrite filter_cons_True.
Qed.

Lemma collect_inspected (document doc : Node) :
  collect document doc
  = fold_left (λ a el, rules (body GlobalDocument document) doc el a)
      (inspected doc) no_candidates.
Proof. unfold collect, JS.forEach. by rewrite forEach_callback. Qed.



Lemma elem_of_unique (raw : list string) (x : string) : x ∈ unique raw ↔ x ∈ raw.
Proof. destruct (unique_first_seen raw) as (_ & H & _). apply H. Qed.

Lemma testIds_synthesize (document doc : Node) :
  testIds (synthesize document doc)
  = match test_id_candidates doc with
    | [] => [NO_TEST_IDS]
    | l => unique l
    end.
Proof.
  unfold synthesize, selectors_of. fields. rewrite collect_inspected.
  destruct (fold_rules_shape (body GlobalDocument document) doc (inspected doc))
    as (xs & cs & Hfold & _).
  rewrite Hfold. fields. cbn [no_candidates app]. fold (test_id_candidates doc).
  destruct (test_id_candidates doc); [done|].
  by rewrite bool_decide_eq_true_2.
Qed.


(** C10. Unless the test-id list is the sentinel alone, each of its
    strings also occurs in the css list. *)
Theorem C10_test_ids_within_css (document doc : Node) (s : string) :
  testIds (synthesize document doc) ≠ [NO_TEST_IDS] →
  s ∈ testIds (synthesize document doc) →
  s ∈ css (synthesize document doc).
Proof.
  rewrite testIds_synthesize. intros Hne Hs.
  destruct (test_id_candidates doc) as [|c l] eqn:E; [done|].
  rewrite <- E in Hs. apply (proj1 (elem_of_unique _ _)) in Hs.
  apply list_elem_of_bind in Hs as (el & Hs & Hel).
  unfold synthesize, selectors_of. fields. rewrite collect_inspected.
  destruct (fold_rules_shape (body GlobalDocument document) doc (inspected doc))
    as (xs & cs & Hfold & Hin).
  rewrite Hfold. fields. cbn [no_candidates app]. apply elem_of_unique.
  by apply (Hin el s Hel).
Qed.

(** ** The page the application runs in plays no part *)

Lemma descendants_Element (t : string) (a : list (string * string))
    (cs : list Node) (e : Elem) :
  descendants (Element t a cs) e = descendants_list e 0 cs.
Proof.
  cbn [descendants]. generalize 0.
  induction cs as [|c cs IH]; intros i; [done|].
  destruct c; cbn [descendants_list]; by rewrite <- IH.
Qed.

Lemma descendants_owner (n : Node) :
  ∀ e x, x ∈ descendants n e → owner x = owner e.
Proof.
  induction n as [t a cs IH|d] using Node_nested_ind; intros e x Hx.
  - rewrite descendants_Element in Hx. generalize dependent 0.
    induction IH as [|c cs Hc _ IHcs]; intros i Hx.
    + by apply elem_of_nil in Hx.
    + destruct c as [t' a' cs'|d]; cbn [descendants_list] in Hx; [|by eauto].
      apply elem_of_cons in Hx as [->|Hx]; [done|].
      apply elem_of_app in Hx as [Hx|Hx]; [|by eauto].
      by apply Hc in Hx.
  - by apply elem_of_nil in Hx.
Qed.

Lemma elements_owner (doc : Node) (el : Elem) :
  el ∈ elements_of doc → owner el = ParsedDocument.
Proof.
  unfold elements_of, querySelectorAll_star. destruct doc; intros H.
  - apply elem_of_cons in H as [->|H]; [done|].
    by apply descendants_owner in H.
  - by apply elem_of_nil in H.
Qed.

Lemma inspected_owner (doc : Node) (el : Elem) :
  el ∈ inspected doc → owner el = ParsedDocument.
Proof.
  intros [_ H]%list_elem_of_filter. apply elem_of_take in H as (i & Hi & _).
  eapply elements_owner, list_elem_of_lookup_2, Hi.
Qed.

Lemma body_owner (o : Owner) (root : Node) (b : Elem) :
  body o root = Some b → owner b = o.
Proof.
  unfold body. case_bool_decide as Hhtml; [|done]. intros Hb.
  apply List.find_some in Hb as [Hb _]. apply list_elem_of_In in Hb.
  unfold children in Hb. apply elem_of_lookup_imap in Hb as (i & c & -> & _).
  done.
Qed.

Lemma not_the_page_body (document : Node) (el : Elem) :
  owner el = ParsedDocument →
  from_option (λ b, same el b) false (body GlobalDocument document) = false.
Proof.
  intros Hel. destruct (body GlobalDocument document) as [b|] eqn:E; [|done].
  apply body_owner in E. simpl. unfold same.
  apply bool_decide_eq_false_2. intros [H _]. congruence.
Qed.

Lemma getXPathTo_parsed (document : Node) (el : Elem) :
  owner el = ParsedDocument →
  getXPathTo (body GlobalDocument document) el = getXPathTo None el.
Proof.
  induction el as [o n|parent IH i n]; intros Hel.
  - cbn [getXPathTo]. by rewrite not_the_page_body.
  - cbn [getXPathTo]. rewrite not_the_page_body by done. by rewrite IH.
Qed.

Lemma rules_parsed (document doc : Node) (el : Elem) (a : Acc) :
  owner el = ParsedDocument →
  rules (body GlobalDocument document) doc el a = rules None doc el a.
Proof.
  intros Hel. unfold rules, absolute_rule. by rewrite getXPathTo_parsed.
Qed.

Lemma fold_left_agree {A B : Type} (f g : A → B → A) (l : list B) (a : A) :
  (∀ x a, x ∈ l → f a x = g a x) → fold_left f l a = fold_left g l a.
Proof.
  revert a. induction l as [|x l IH]; intros a H; [done|].
  cbn [fold_left]. rewrite H by apply list_elem_of_here.
  apply IH. intros y b Hy. apply H. by apply list_elem_of_further.
Qed.

Lemma collect_parsed (document doc : Node) :
  collect document doc
  = fold_left (λ a el, rules None doc el a) (inspected doc) no_candidates.
Proof.
  rewrite collect_inspected. apply fold_left_agree.
  intros el a Hel. apply rules_parsed. by eapply inspected_owner.
Qed.

(** The result does not depend on the page: the element the generator
    compares with [document.body] is never an element of that page. *)
Lemma synthesize_any_page (document document' doc : Node) :
  synthesize document doc = synthesize document' doc.
Proof. unfold synthesize. by rewrite !collect_parsed. Qed.

(** ** Where the emitted strings come from *)

Lemma collect_exact (document doc : Node) :
  collect document doc
  = mkAcc (inspected doc ≫= xpaths_of (body GlobalDocument document) doc)
      (inspected doc ≫= css_of (body GlobalDocument document) doc)
      (test_id_candidates doc).
Proof. by rewrite collect_inspected, fold_rules_exact. Qed.

(** A string is in the xpath list exactly when the rules push it for some
    inspected element; likewise for the css list. *)
Lemma xpath_provenance (document doc : Node) (s : string) :
  s ∈ xpath (synthesize document doc)
  ↔ ∃ el, el ∈ inspected doc ∧ s ∈ xpaths_of (body GlobalDocument document) doc el.
Proof.
  unfold synthesize, selectors_of. fields.
  rewrite elem_of_unique, collect_exact. fields.
  rewrite list_elem_of_bind. split; intros (el & H1 & H2); eauto.
Qed.

Lemma css_provenance (document doc : Node) (s : string) :
  s ∈ css (synthesize document doc)
  ↔ ∃ el, el ∈ inspected doc ∧ s ∈ css_of (body GlobalDocument document) doc el.
Proof.
  unfold synthesize, selectors_of. fields.
  rewrite elem_of_unique, collect_exact. fields.
  rewrite list_elem_of_bind. split; intros (el & H1 & H2); eauto.
Qed.

Lemma inspected_not_skipped (doc : Node) (el : Elem) :
  el ∈ inspected doc → tag_of el ∉ SKIPPED_TAGS.
Proof. by intros [H _]%list_elem_of_filter. Qed.

(** ** The helpers *)










Lemma escapeXpathText_no_double_quote (s : string) :
  JS.contains_char "'" s = true → JS.contains_char dq s = false →
  escapeXpathText s = DQ +:+ s +:+ DQ.
Proof. unfold escapeXpathText. by intros -> ->. Qed.

Lemma escapeXpathText_both_quotes (s : string) :
  JS.contains_char "'" s = true → JS.contains_char dq s = true →
  escapeXpathText s
  = "concat('"
    +:+ JS.replace_char "'" ("'," +:+ DQ +:+ "'" +:+ DQ +:+ ",'") s +:+ "')".
Proof. unfold escapeXpathText. by intros -> ->. Qed.



(** The text of the example with a quoted word is wrapped in single
    quotes. *)
Lemma hello_world_xpaths (document : Node) :
  xpath (synthesize document hello_world)
  = ["//div[normalize-space(text())='Hello " +:+ DQ +:+ "World" +:+ DQ +:+ "']";
     "//div[contains(normalize-space(text()), 'Hello "
       +:+ DQ +:+ "World" +:+ DQ +:+ "')]"].
Proof. rewrite (synthesize_any_page document blank_page). by vm_compute. Qed.

(** ** The generator on concrete documents *)

(** C1. For an input without id directly under body the absolute path is
    /html/body[1]/input[1]: the walk gives body a positional segment
    instead of stopping at /html/body, because the body it compares with
    is the one of the page and not the one of the parsed document. *)
Theorem C1_body_step_is_positional (document : Node) :
  xpath (synthesize document lone_input) = ["/html/body[1]/input[1]"].
Proof. rewrite (synthesize_any_page document blank_page). by vm_compute. Qed.

(** C2. For an input whose id is it's the id rule quotes the id with double
    quotes, while the absolute path puts it between single quotes as it
    is. *)
Theorem C2_absolute_path_id_not_escaped (document : Node) :
  xpath (synthesize document quoted_id_input)
  = ["//input[@id=" +:+ DQ +:+ "it's" +:+ DQ +:+ "]"; "//*[@id='it's']"].
Proof. rewrite (synthesize_any_page document blank_page). by vm_compute. Qed.

(** C8. Of two label and input pairs under one parent only the first gets
    the following-sibling XPath: the second input, although it directly
    follows the label B, gets none. *)
Theorem C8_second_sibling_label_missed (document : Node) :
  xpath (synthesize document two_labelled_inputs)
  = [sibling_label_xpath "input" "A";
     "/html/body[1]/input[1]"; "/html/body[1]/input[2]"] ∧
  sibling_label_xpath "input" "B" ∉ xpath (synthesize document two_labelled_inputs).
Proof.
  rewrite (synthesize_any_page document blank_page).
  assert (xpath (synthesize blank_page two_labelled_inputs)
          = [sibling_label_xpath "input" "A";
             "/html/body[1]/input[1]"; "/html/body[1]/input[2]"]) as ->
    by (by vm_compute).
  split; [done|]. intros Hin.
  repeat (apply elem_of_cons in Hin as [Hin|Hin]; [by vm_compute in Hin|]).
  by apply elem_of_nil in Hin.
Qed.

(** ** Validation *)

Lemma trim_whitespace_only (s : string) :
  whitespace_only s = true → JS.trim s = EmptyString.
Proof.
  unfold JS.trim. induction s as [|c s IH]; [done|].
  cbn [whitespace_only JS.trimStart]. intros [Hc Hs]%andb_prop.
  rewrite Hc. by apply IH.
Qed.

(** C5. For an input that is empty or all white space, the component
    reports the validation message and does nothing else: the parser is
    not called and the state, with its stored selectors, is unchanged. *)
Theorem C5_whitespace_rejected (parseFromString : string → option Node)
    (document : Node) (st : State) :
  whitespace_only (html st) = true →
  generateSelectors parseFromString document st
  = (st, [ToastError "Please enter some HTML first"]) ∧
  (∀ markup, ParseFromString markup
             ∉ snd (generateSelectors parseFromString document st)).
Proof.
  intros Hws. unfold generateSelectors.
  rewrite trim_whitespace_only by done. cbn. split; [done|].
  intros markup [H|H]%elem_of_cons; [done|]. by apply elem_of_nil in H.
Qed.

Lemma C5_whitespace_rejected_witness :
  let st := mkState "  " (Some (mkSelectors ["//a"] [] [NO_TEST_IDS])) in
  whitespace_only (html st) = true ∧
  generateSelectors (λ _, Some lone_input) app_page st
  = (st, [ToastError "Please enter some HTML first"]).
Proof.
  split; [reflexivity|].
  apply (C5_whitespace_rejected (λ _, Some lone_input) app_page
           (mkState "  " (Some (mkSelectors ["//a"] [] [NO_TEST_IDS])))).
  reflexivity.
Defined.

(** ** The cap and the skipped tags *)


(** C7. An element with one of the seven structural tags leaves the three
    arrays as they are, wherever it stands; for the document of
    <html><head></head><body><p id="a">Hi</p></body></html> every emitted
    string comes from the p element and none mentions html, head or body;
    and in general every string of the xpath and css lists is pushed by the
    rules for an inspected element, whose tag is not a structural one. *)
Theorem C7_structural_tags_skipped :
  (∀ document doc el index a,
     tag_of el ∈ SKIPPED_TAGS → callback document doc el index a = a) ∧
  (∀ document,
     synthesize document paragraph
     = mkSelectors
         ["//p[@id='a']"; "//p[normalize-space(text())='Hi']";
          "//p[contains(normalize-space(text()), 'Hi')]"]
         ["p#a"] [NO_TEST_IDS]) ∧
  (∀ document s t,
     s ∈ xpath (synthesize document paragraph)
         ++ css (synthesize document paragraph)
         ++ testIds (synthesize document paragraph) →
     t ∈ ["html"; "head"; "body"] → occurs t s = false) ∧
  (∀ document doc s,
     s ∈ xpath (synthesize document doc) →
     ∃ el, el ∈ inspected doc ∧ (tag_of el ∉ SKIPPED_TAGS) ∧
           s ∈ xpaths_of (body GlobalDocument document) doc el) ∧
  (∀ document doc s,
     s ∈ css (synthesize document doc) →
     ∃ el, el ∈ inspected doc ∧ (tag_of el ∉ SKIPPED_TAGS) ∧
           s ∈ css_of (body GlobalDocument document) doc el).
Proof.
  split_and!; cycle 3.
  - intros document doc s (el & Hel & Hs)%xpath_provenance.
    eauto using inspected_not_skipped.
  - intros document doc s (el & Hel & Hs)%css_provenance.
    eauto using inspected_not_skipped.
  - intros document doc el index a. apply callback_skipped.
  - intros document. rewrite (synthesize_any_page document blank_page).
    by vm_compute.
  - intros document s t. rewrite (synthesize_any_page document blank_page).
    intros Hs Ht. vm_compute in Hs.
    repeat (apply elem_of_cons in Hs as [->|Hs]);
      [repeat (apply elem_of_cons in Ht as [->|Ht]); try reflexivity;
       by apply elem_of_nil in Ht ..|].
    by apply elem_of_nil in Hs.
Qed.

Lemma C10_test_ids_within_css_witness :
  testid_css "input" "data-testid" "user-input"
    ∈ css (synthesize app_page user_input).
Proof.
  apply (C10_test_ids_within_css app_page user_input).
  - vm_compute. discriminate.
  - vm_compute. apply list_elem_of_here.
Defined.


Lemma C7_structural_tags_skipped_witness :
  callback app_page paragraph (Root ParsedDocument paragraph) 0 no_candidates
  = no_candidates.
Proof.
  apply (proj1 C7_structural_tags_skipped). compute_done.
Defined.

(** ** The wrappers and the cap *)

Lemma descendants_childless (n : Node) (e : Elem) :
  element_children n = [] → descendants n e = [].
Proof.
  destruct n as [t a cs|d]; [|done]. rewrite descendants_Element.
  unfold element_children. cbn [childNodes_of]. generalize 0.
  induction cs as [|c cs IH]; intros i H; [done|].
  destruct c; cbn [descendants_list]; [done|]. by apply IH.
Qed.

Lemma elements_wrapped (h b : list Node) :
  elements_of (wrapped h b)
  = html_element h b :: head_element h b
    :: descendants (head_of h) (head_element h b)
    ++ body_element h b :: descendants (body_of b) (body_element h b).
Proof.
  unfold elements_of, querySelectorAll_star, wrapped.
  rewrite descendants_Element. cbn [descendants_list head_of body_of].
  by rewrite app_nil_r.
Qed.

(** * Further properties of the generator *)

(** ** The absolute path *)







Lemma rooted_append (s t : string) : rooted s → rooted (s +:+ t).
Proof. intros [u ->]. by exists (u +:+ t). Qed.


(** The result for a parsed document is the same whatever page the tool
    runs in: the only use of the global document, the comparison with its
    body, never succeeds for an element of the parsed document. *)
Theorem result_independent_of_page (document document' doc : Node) :
  synthesize document doc = synthesize document' doc.
Proof. apply synthesize_any_page. Qed.

(** ** What each rule adds to the result *)






Lemma pushed_by_absolute_rule (P : Acc → Prop) (db : option Elem) (doc : Node)
    (el : Elem) :
  (∀ a, P (absolute_rule db el (tag_of el) a)) → P (rules db doc el no_candidates).
Proof. intros H. unfold rules. cbv beta zeta. apply H. Qed.














Lemma Quiet_linked_label_rule (doc : Node) (tag : string) (i : option string) :
  Quiet (linked_label_rule doc tag i).
Proof. unfold linked_label_rule. quiet. Qed.












(** ** The test-id list *)

Lemma contains_char_app (c : ascii) (a b : string) :
  JS.contains_char c (a +:+ b) = JS.contains_char c a || JS.contains_char c b.
Proof.
  induction a as [|d a IH]; [done|].
  change (String d a +:+ b) with (String d (a +:+ b)).
  cbn [JS.contains_char]. case_bool_decide; [done|]. apply IH.
Qed.

Lemma candidate_not_sentinel (el : Elem) (s : string) :
  s ∈ test_id_candidates_of el → s ≠ NO_TEST_IDS.
Proof.
  intros (attr & Hs & _)%list_elem_of_bind.
  apply list_elem_of_fmap in Hs as (value & -> & _). intros H.
  assert (JS.contains_char "[" (testid_css (tag_of el) attr value) = true) as Hc.
  { unfold testid_css. rewrite !contains_char_app. cbn.
    by rewrite orb_true_r. }
  rewrite H in Hc. by vm_compute in Hc.
Qed.

(** The test-id list is never empty, and it holds the sentinel exactly
    when no inspected element carries a test-id attribute with a value. *)
Theorem testIds_sentinel (document doc : Node) :
  testIds (synthesize document doc) ≠ [] ∧
  (NO_TEST_IDS ∈ testIds (synthesize document doc)
   ↔ ∀ el attr, el ∈ inspected doc → attr ∈ TEST_ID_ATTRIBUTES →
                test_id_value el attr = []).
Proof.
  rewrite testIds_synthesize.
  destruct (test_id_candidates doc) as [|c l] eqn:E.
  - split; [done|]. split; [|intros; apply list_elem_of_here].
    intros _ el attr Hel Hattr.
    destruct (test_id_value el attr) as [|value vs] eqn:Ev; [done|].
    assert (testid_css (tag_of el) attr value ∈ test_id_candidates doc) as Hin.
    { apply list_elem_of_bind. exists el. split; [|done].
      apply list_elem_of_bind. exists attr. split; [|done].
      rewrite Ev. apply list_elem_of_fmap. exists value.
      split; [done|apply list_elem_of_here]. }
    rewrite E in Hin. by apply elem_of_nil in Hin.
  - rewrite <- E. split.
    + intros H. assert (c ∈ unique (test_id_candidates doc)) as Hc.
      { apply elem_of_unique. rewrite E. apply list_elem_of_here. }
      rewrite H in Hc. by apply elem_of_nil in Hc.
    + split.
      * intros (el & Hs & Hel)%elem_of_unique%list_elem_of_bind.
        by apply candidate_not_sentinel in Hs.
      * intros Hnone. assert (c ∈ test_id_candidates doc) as Hc.
        { rewrite E. apply list_elem_of_here. }
        apply list_elem_of_bind in Hc as (el & Hc & Hel).
        apply list_elem_of_bind in Hc as (attr & Hc & Hattr).
        rewrite (Hnone el attr Hel Hattr) in Hc. by apply elem_of_nil in Hc.
Qed.

Lemma testIds_sentinel_witness :
  NO_TEST_IDS ∈ testIds (synthesize app_page lone_input).
Proof.
  apply (proj2 (testIds_sentinel app_page lone_input)).
  intros el attr Hel Hattr. vm_compute in Hel.
  apply elem_of_cons in Hel as [->|Hel]; [|by apply elem_of_nil in Hel].
  repeat (apply elem_of_cons in Hattr as [->|Hattr]; [reflexivity|]).
  by apply elem_of_nil in Hattr.
Defined.

(** ** The escaping helpers *)

Lemma length_append (a b : string) :
  String.length (a +:+ b) = String.length a + String.length b.
Proof.
  induction a as [|c a IH]; [done|].
  change (String c a +:+ b) with (String c (a +:+ b)).
  cbn [String.length]. by rewrite IH.
Qed.

Lemma append_inv_tail (a b t : string) : a +:+ t = b +:+ t → a = b.
Proof.
  revert b. induction a as [|c a IH]; intros [|d b] H.
  - done.
  - apply (f_equal String.length) in H. rewrite !length_append in H.
    cbn [String.length] in H. lia.
  - apply (f_equal String.length) in H. rewrite !length_append in H.
    cbn [String.length] in H. lia.
  - change (String c (a +:+ t) = String d (b +:+ t)) in H.
    injection H as -> H. f_equal. by apply IH.
Qed.

Lemma replace_quote_inj (r r' s1 s2 : string) :
  r = String "'" r' →
  JS.replace_char "'" r s1 = JS.replace_char "'" r s2 → s1 = s2.
Proof.
  intros Hr. revert s2.
  induction s1 as [|c s1 IH]; intros [|d s2] H; cbn [JS.replace_char] in H.
  - done.
  - case_bool_decide; [rewrite Hr in H|]; discriminate.
  - case_bool_decide; [rewrite Hr in H|]; discriminate.
  - case_bool_decide as Hc; case_bool_decide as Hd.
    + subst c d. apply (inj (String.app r)) in H. f_equal. by apply IH.
    + rewrite Hr in H. injection H as H _. congruence.
    + rewrite Hr in H. injection H as H _. congruence.
    + injection H as -> H. f_equal. by apply IH.
Qed.

(** Two different texts never get the same XPath literal. *)
Theorem escapeXpathText_inj (s1 s2 : string) :
  escapeXpathText s1 = escapeXpathText s2 → s1 = s2.
Proof.
  unfold escapeXpathText.
  destruct (JS.contains_char "'" s1), (JS.contains_char dq s1),
    (JS.contains_char "'" s2), (JS.contains_char dq s2);
    cbn [negb]; intros H; try (by cbn in H).
  all: cbn in H; simplify_eq.
  all: try (by apply (append_inv_tail _ _ "'")).
  all: try (by apply (append_inv_tail _ _ DQ)).
  eapply replace_quote_inj; [reflexivity|].
  by apply (append_inv_tail _ _ "')").
Qed.

Lemma escapeXpathText_inj_witness : "it's" = "it's".
Proof. apply (escapeXpathText_inj "it's" "it's"). reflexivity. Defined.

Lemma append_cons (c : ascii) (a b : string) :
  String c a +:+ b = String c (a +:+ b).
Proof. reflexivity. Qed.

Lemma append_nil (b : string) : EmptyString +:+ b = b.
Proof. reflexivity. Qed.

Lemma append_assoc (a b c : string) : (a +:+ b) +:+ c = a +:+ b +:+ c.
Proof.
  induction a as [|d a IH]; [done|]. rewrite !append_cons. by rewrite IH.
Qed.

Lemma replace_char_app (c : ascii) (r a b : string) :
  JS.replace_char c r (a +:+ b)
  = JS.replace_char c r a +:+ JS.replace_char c r b.
Proof.
  induction a as [|d a IH]; [done|]. rewrite append_cons.
  cbn [JS.replace_char]. case_bool_decide.
  - by rewrite IH, append_assoc.
  - by rewrite IH.
Qed.

(** The text between the quotes of [escapeCssAttr]. *)
Lemma css_body_cons (c : ascii) (v : string) :
  JS.replace_char dq ("\" +:+ DQ) (JS.replace_char "\" "\\" (String c v))
  = (if bool_decide (c = "\"%char) then "\\"
     else if bool_decide (c = dq) then "\" +:+ DQ
     else String c EmptyString)
    +:+ JS.replace_char dq ("\" +:+ DQ) (JS.replace_char "\" "\\" v).
Proof.
  cbn [JS.replace_char]. case_bool_decide as Hb.
  - subst c. rewrite bool_decide_eq_true_2 by done.
    rewrite replace_char_app. done.
  - rewrite (bool_decide_eq_false_2 (c = "\"%char)) by done.
    cbn [JS.replace_char]. case_bool_decide as Hq.
    + subst c. by rewrite bool_decide_eq_true_2.
    + by rewrite (bool_decide_eq_false_2 (c = dq)).
Qed.

Lemma css_body_inj (v1 v2 : string) :
  JS.replace_char dq ("\" +:+ DQ) (JS.replace_char "\" "\\" v1)
  = JS.replace_char dq ("\" +:+ DQ) (JS.replace_char "\" "\\" v2) →
  v1 = v2.
Proof.
  revert v2. induction v1 as [|c v1 IH]; intros [|d v2] H.
  - done.
  - rewrite css_body_cons in H. repeat case_bool_decide; discriminate.
  - rewrite css_body_cons in H. repeat case_bool_decide; discriminate.
  - rewrite !css_body_cons in H.
    repeat case_bool_decide; subst; rewrite ?append_cons, ?append_nil in H;
      simplify_eq; try done.
    all: f_equal; by apply IH.
Qed.

(** Two different attribute values never get the same quoted CSS value. *)
Theorem escapeCssAttr_inj (v1 v2 : string) :
  escapeCssAttr v1 = escapeCssAttr v2 → v1 = v2.
Proof.
  unfold escapeCssAttr. cbv zeta. intros H.
  apply (inj (String.app DQ)) in H. apply append_inv_tail in H.
  by apply css_body_inj.
Qed.

Lemma escapeCssAttr_inj_witness : "a\b" = "a\b".
Proof. apply (escapeCssAttr_inj "a\b" "a\b"). reflexivity. Defined.

Lemma pieces_head (s : string) : ∃ t rest, pieces s = Segment t :: rest.
Proof.
  destruct s as [|c s]; cbn [pieces]; [by eexists _, _|].
  case_bool_decide; [by eexists _, _|].
  destruct (pieces s) as [|[t|] rest]; by eexists _, _.
Qed.

Lemma join_comma_cons (x : string) (l : list string) :
  join_comma (x :: l)
  = x +:+ match l with
          | [] => EmptyString
          | _ :: _ => "," +:+ join_comma l
          end.
Proof. reflexivity. Qed.

Lemma quoted_pieces (s : string) :
  "'" +:+ JS.replace_char "'" ("'," +:+ DQ +:+ "'" +:+ DQ +:+ ",'") s +:+ "'"
  = join_comma (piece_literal <$> pieces s).
Proof.
  induction s as [|c s IH]; [reflexivity|].
  cbn [pieces JS.replace_char]. destruct (pieces_head s) as (t & rest & Hp).
  case_bool_decide as Hc.
  - rewrite bool_decide_eq_true_2 by done.
    rewrite !fmap_cons, !join_comma_cons.
    destruct (piece_literal <$> pieces s) as [|x l] eqn:E;
      [by rewrite Hp in E|].
    rewrite <- IH. reflexivity.
  - rewrite bool_decide_eq_false_2 by done. rewrite Hp in *.
    rewrite fmap_cons, join_comma_cons in *. cbn [piece_literal] in *.
    rewrite !append_cons, !append_nil in *. injection IH as IH.
    by rewrite IH.
Qed.

Lemma pieces_well_quoted (s : string) : Forall well_quoted (pieces s).
Proof.
  induction s as [|c s IH]; cbn [pieces].
  - by constructor.
  - case_bool_decide as Hc.
    + constructor; [done|]. by constructor.
    + destruct (pieces s) as [|[t|] rest].
      * constructor; [|done]. cbn.
        by rewrite bool_decide_eq_false_2 by congruence.
      * inversion IH as [|? ? Ht Hrest]; subst. constructor; [|done].
        cbn. by rewrite bool_decide_eq_false_2 by congruence.
      * constructor; [|done]. cbn.
        by rewrite bool_decide_eq_false_2 by congruence.
Qed.

Lemma pieces_value (s : string) :
  concat_strings (piece_value <$> pieces s) = s.
Proof.
  induction s as [|c s IH]; [reflexivity|]. cbn [pieces].
  destruct (pieces_head s) as (t & rest & Hp). rewrite Hp in *.
  case_bool_decide as Hc.
  - subst c. cbn [fmap list_fmap concat_strings piece_value] in *.
    by rewrite IH.
  - cbn [fmap list_fmap concat_strings piece_value] in *.
    by rewrite append_cons, IH.
Qed.

Lemma pieces_length (s : string) :
  JS.contains_char "'" s = true → 3 ≤ length (pieces s).
Proof.
  induction s as [|c s IH]; [done|]. cbn [JS.contains_char pieces].
  destruct (pieces_head s) as (t & rest & Hp).
  case_bool_decide as Hc.
  - subst c. rewrite bool_decide_eq_true_2 by done. intros _. rewrite Hp.
    cbn. lia.
  - rewrite bool_decide_eq_false_2 by congruence. intros H%IH.
    rewrite Hp in *. cbn in *. lia.
Qed.

(** For a text with both kinds of quotes the result is concat(...) applied
    to at least three arguments separated by commas: the stretches of the
    text between its single quotes, each between single quotes and itself
    free of them, and the single quotes, each between double quotes; put
    end to end, what the arguments denote is the text. *)
Theorem escapeXpathText_concat_arguments (s : string) :
  JS.contains_char "'" s = true → JS.contains_char dq s = true →
  escapeXpathText s
  = "concat(" +:+ join_comma (piece_literal <$> pieces s) +:+ ")" ∧
  Forall well_quoted (pieces s) ∧
  concat_strings (piece_value <$> pieces s) = s ∧
  3 ≤ length (pieces s).
Proof.
  intros Hs Hd. split_and!.
  - rewrite escapeXpathText_both_quotes by done. rewrite <- quoted_pieces.
    rewrite !append_cons, !append_nil, !append_assoc. reflexivity.
  - apply pieces_well_quoted.
  - apply pieces_value.
  - by apply pieces_length.
Qed.

Lemma escapeXpathText_concat_arguments_witness :
  escapeXpathText ("a'b" +:+ DQ)
  = "concat(" +:+ join_comma ["'a'"; DQ +:+ "'" +:+ DQ; "'b" +:+ DQ +:+ "'"]
    +:+ ")".
Proof.
  apply (escapeXpathText_concat_arguments ("a'b" +:+ DQ)); reflexivity.
Defined.

(** ** How much the generator emits, and of what form *)

Lemma Emits_id (P : string → Prop) : Emits P 0 0 (λ a, a).
Proof.
  exists [], []. split_and!; [done..|]. intros [x c t]. cbn.
  by rewrite !app_nil_r.
Qed.

Lemma Emits_push_xpath (P : string → Prop) (n m : nat) (f : Acc → Acc)
    (s : string) :
  Emits P n m f → P s → Emits P (S n) m (λ a, push_xpath s (f a)).
Proof.
  intros (xs & cs & HP & Hn & Hm & H) Hs. exists (xs ++ [s]), cs. split_and!.
  - apply Forall_app. split; [done|]. by constructor.
  - rewrite length_app. cbn. lia.
  - done.
  - intros a. rewrite H. unfold push_xpath. cbn. by rewrite app_assoc.
Qed.

Lemma Emits_push_css (P : string → Prop) (n m : nat) (f : Acc → Acc)
    (s : string) :
  Emits P n m f → Emits P n (S m) (λ a, push_css s (f a)).
Proof.
  intros (xs & cs & HP & Hn & Hm & H). exists xs, (cs ++ [s]). split_and!.
  - done.
  - done.
  - rewrite length_app. cbn. lia.
  - intros a. rewrite H. unfold push_css. cbn. by rewrite app_assoc.
Qed.

Lemma Emits_weaken (P : string → Prop) (n m n' m' : nat) (f : Acc → Acc) :
  Emits P n m f → n ≤ n' → m ≤ m' → Emits P n' m' f.
Proof.
  intros (xs & cs & HP & Hn & Hm & H) Hn' Hm'. exists xs, cs.
  split_and!; [done|lia|lia|done].
Qed.

Lemma Emits_compose (P : string → Prop) (n m n' m' : nat) (f g : Acc → Acc) :
  Emits P n m f → Emits P n' m' g → Emits P (n + n') (m + m') (λ a, g (f a)).
Proof.
  intros (xs & cs & HP & Hn & Hm & Hf) (xs' & cs' & HP' & Hn' & Hm' & Hg).
  exists (xs ++ xs'), (cs ++ cs'). split_and!.
  - by apply Forall_app.
  - rewrite length_app. lia.
  - rewrite length_app. lia.
  - intros a. rewrite Hg, Hf. cbn. by rewrite !app_assoc.
Qed.

Lemma Emits_fold {A : Type} (P : string → Prop) (k j : nat)
    (step : Acc → A → Acc) (l : list A) :
  (∀ x, Emits P k j (λ a, step a x)) →
  Emits P (length l * k) (length l * j) (λ a, fold_left step l a).
Proof.
  intros Hstep. induction l as [|x l IH] using rev_ind.
  - apply Emits_id.
  - eapply (Emits_compose _ _ _ _ _ _ (λ a, step a x)) in IH; [|apply Hstep].
    destruct IH as (xs & cs & HP & Hn & Hm & H). exists xs, cs.
    rewrite length_app. cbn [length]. split_and!; [done|lia|lia|].
    intros a. rewrite fold_left_app. apply H.
Qed.

Ltac emits :=
  repeat case_match;
  (eapply Emits_weaken;
   [repeat first
      [ apply Emits_id
      | apply Emits_push_css
      | apply Emits_push_xpath; [|by eexists] ]
   | lia | lia ]).

Lemma Emits_id_rule (tag : string) (i : option string) :
  Emits rooted 1 1 (id_rule tag i).
Proof. unfold id_rule. emits. Qed.

Lemma Emits_label_rules (doc : Node) (el : Elem) (tag : string)
    (i : option string) :
  Emits rooted 3 1 (label_rules doc el tag i).
Proof.
  unfold label_rules. case_match; [|emits].
  apply (Emits_compose rooted 2 1 1 0
           (λ a, parent_label_rule el tag (linked_label_rule doc tag i a))
           (sibling_label_rule el tag)).
  - apply (Emits_compose rooted 1 0 1 1
             (linked_label_rule doc tag i) (parent_label_rule el tag)).
    + unfold linked_label_rule. emits.
    + unfold parent_label_rule. emits.
  - unfold sibling_label_rule, sibling_label_xpath. emits.
Qed.

Lemma Emits_text_rule (el : Elem) (tag text : string) :
  Emits rooted 2 0 (text_rule el tag text).
Proof. unfold text_rule, text_exact_xpath, text_contains_xpath. emits. Qed.

Lemma Emits_stable_attribute_rule (el : Elem) (tag attr : string) :
  Emits rooted 1 1 (λ a, stable_attribute_rule el tag a attr).
Proof. unfold stable_attribute_rule. emits. Qed.

Lemma sibling_loop_rooted (el : Elem) (parent_path : string)
    (siblings : list Elem) (ix : nat) :
  rooted parent_path → rooted (sibling_loop el parent_path siblings ix).
Proof.
  intros Hp. revert ix. induction siblings as [|s rest IH]; intros ix;
    cbn [sibling_loop]; [by eexists|].
  case_match; [by apply rooted_append|apply IH].
Qed.

Lemma getXPathTo_rooted (db : option Elem) (el : Elem) :
  rooted (getXPathTo db el).
Proof.
  induction el as [o n|parent IH i n]; cbn [getXPathTo];
    repeat case_match; try (by eexists).
  by apply sibling_loop_rooted.
Qed.

Lemma Emits_absolute_rule (db : option Elem) (el : Elem) (tag : string) :
  Emits rooted 1 0 (absolute_rule db el tag).
Proof.
  unfold absolute_rule. case_match; [|emits].
  apply (Emits_push_xpath rooted 0 0 (λ a, a)); [apply Emits_id|].
  apply getXPathTo_rooted.
Qed.

Lemma Emits_later_rules (db : option Elem) (doc : Node) (el : Elem) :
  Emits rooted 15 10 (later_rules db doc el).
Proof.
  unfold later_rules.
  apply (Emits_compose rooted 14 10 1 0 _ (absolute_rule db el (tag_of el)));
    [|apply Emits_absolute_rule].
  apply (Emits_compose rooted 6 2 8 8 _
           (λ a, fold_left (stable_attribute_rule el (tag_of el)) STABLE_ATTRIBUTES a));
    [|apply (Emits_fold rooted 1 1 _ STABLE_ATTRIBUTES),
        Emits_stable_attribute_rule].
  apply (Emits_compose rooted 4 2 2 0 _ (text_rule el (tag_of el) _));
    [|apply Emits_text_rule].
  apply (Emits_compose rooted 1 1 3 1 _ (label_rules doc el (tag_of el) _));
    [|apply Emits_label_rules].
  apply Emits_id_rule.
Qed.

Lemma test_id_value_length (el : Elem) (attr : string) :
  length (test_id_value el attr) ≤ 1.
Proof. unfold test_id_value. repeat case_match; cbn; lia. Qed.

Lemma test_id_lists_length (el : Elem) (l : list string) :
  length (test_id_xpaths_for el l) ≤ length l ∧
  length (test_id_candidates_for el l) ≤ length l.
Proof.
  unfold test_id_xpaths_for, test_id_candidates_for.
  induction l as [|attr l [IHx IHc]]; [done|].
  rewrite !bind_cons, !length_app, !length_fmap.
  pose proof (test_id_value_length el attr). cbn [length]. lia.
Qed.

Lemma test_id_xpaths_rooted (el : Elem) (l : list string) :
  Forall rooted (test_id_xpaths_for el l).
Proof.
  apply Forall_forall. intros s (attr & Hs & _)%list_elem_of_bind.
  apply list_elem_of_fmap in Hs as (value & -> & _). by eexists.
Qed.

Lemma rules_emission (db : option Elem) (doc : Node) (el : Elem) :
  Forall rooted (xpaths_of db doc el) ∧
  length (xpaths_of db doc el) ≤ 19 ∧
  length (css_of db doc el) ≤ 14 ∧
  length (test_id_candidates_of el) ≤ 4.
Proof.
  unfold xpaths_of, css_of.
  destruct (Emits_later_rules db doc el) as (xs & cs & HP & Hn & Hm & H).
  rewrite rules_split, H, test_id_fold.
  cbn [no_candidates xpaths cssSelectors dataTestIdSelectors app].
  destruct (test_id_lists_length el TEST_ID_ATTRIBUTES) as [Hx Hc].
  change (length TEST_ID_ATTRIBUTES) with 4 in Hx, Hc.
  unfold test_id_candidates_of.
  split_and!.
  - apply Forall_app. split; [apply test_id_xpaths_rooted|done].
  - rewrite length_app. lia.
  - rewrite length_app. lia.
  - done.
Qed.

Lemma bind_length_le {A B : Type} (f : A → list B) (k : nat) (l : list A) :
  (∀ x, length (f x) ≤ k) → length (l ≫= f) ≤ length l * k.
Proof.
  intros Hf. induction l as [|x l IH]; [done|].
  rewrite bind_cons, length_app. specialize (Hf x). cbn [length]. lia.
Qed.

Lemma inspected_length (doc : Node) : length (inspected doc) ≤ 100.
Proof.
  unfold inspected. etrans; [apply length_filter|]. rewrite length_take. lia.
Qed.

Lemma unique_length (raw : list string) : length (unique raw) ≤ length raw.
Proof.
  destruct (unique_first_seen raw) as (Hnd & Hin & _).
  apply submseteq_length, NoDup_submseteq; [done|]. intros x. apply Hin.
Qed.

(** Whatever the size of the document, the result holds at most 1900
    XPaths, 1400 CSS selectors and 400 test-id selectors: an element adds at
    most 19, 14 and 4 of them and at most a hundred elements are
    inspected. *)
Theorem output_sizes_bounded (document doc : Node) :
  length (xpath (synthesize document doc)) ≤ 1900 ∧
  length (css (synthesize document doc)) ≤ 1400 ∧
  length (testIds (synthesize document doc)) ≤ 400.
Proof.
  pose proof (inspected_length doc) as Hlen.
  rewrite testIds_synthesize. unfold synthesize, selectors_of. fields.
  rewrite collect_exact. fields. split_and!.
  - etrans; [apply unique_length|].
    etrans; [apply (bind_length_le _ 19)|lia].
    intros el. apply rules_emission.
  - etrans; [apply unique_length|].
    etrans; [apply (bind_length_le _ 14)|lia].
    intros el. apply rules_emission.
  - assert (length (test_id_candidates doc) ≤ 400) as Hc.
    { etrans; [apply (bind_length_le _ 4)|lia].
      intros el. apply (rules_emission None doc el). }
    destruct (test_id_candidates doc) as [|c l] eqn:E; [cbn; lia|].
    etrans; [apply unique_length|done].
Qed.

(** Every string of the xpath list starts with a slash. *)
Theorem xpaths_all_rooted (document doc : Node) (s : string) :
  s ∈ xpath (synthesize document doc) → rooted s.
Proof.
  intros (el & _ & Hs)%xpath_provenance.
  destruct (rules_emission (body GlobalDocument document) doc el) as [H _].
  by eapply Forall_forall in H.
Qed.

Lemma xpaths_all_rooted_witness : rooted "//input[@id='em']".
Proof.
  apply (xpaths_all_rooted app_page email_form).
  vm_compute. apply list_elem_of_here.
Defined.

(** * The test-id rule and the cap, in the strings and positions themselves *)






(** C9. The cap is tested before the tag, so an element at position 100
    or later is left out whatever its tag. In a parsed document html and
    head stand at positions 0 and 1: the rules are applied to the elements
    with a tag that is not skipped among the at most 98 elements at
    positions 2 to 99, and to no other. When body stands at position 2 it
    takes a third place, and the rules are applied among the at most 97
    elements at positions 3 to 99. *)
Theorem C9_wrappers_take_cap_slots (document doc : Node) (e0 e1 : Elem) :
  elements_of doc !! 0 = Some e0 → tag_of e0 = "html" →
  elements_of doc !! 1 = Some e1 → tag_of e1 = "head" →
  (∀ el index a, 100 ≤ index → callback document doc el index a = a) ∧
  collect document doc
  = fold_left (λ a el, rules (body GlobalDocument document) doc el a)
      (filter (λ el, tag_of el ∉ SKIPPED_TAGS)
         (take 98 (drop 2 (elements_of doc))))
      no_candidates ∧
  length (take 98 (drop 2 (elements_of doc))) ≤ 98 ∧
  (∀ e2,
     elements_of doc !! 2 = Some e2 → tag_of e2 = "body" →
     collect document doc
     = fold_left (λ a el, rules (body GlobalDocument document) doc el a)
         (filter (λ el, tag_of el ∉ SKIPPED_TAGS)
            (take 97 (drop 3 (elements_of doc))))
         no_candidates ∧
     length (take 97 (drop 3 (elements_of doc))) ≤ 97).
Proof.
  intros H0 Ht0 H1 Ht1. rewrite collect_inspected. unfold inspected.
  destruct (elements_of doc) as [|x [|y rest]]; [done..|].
  injection H0 as ->. injection H1 as ->.
  assert (¬ (tag_of e0 ∉ SKIPPED_TAGS)) as Hs0
    by (rewrite Ht0; intros H; apply H; compute_done).
  assert (¬ (tag_of e1 ∉ SKIPPED_TAGS)) as Hs1
    by (rewrite Ht1; intros H; apply H; compute_done).
  cbn [take drop]. rewrite !filter_cons_False by done.
  split_and!.
  - intros el index a. apply callback_beyond_cap.
  - done.
  - rewrite length_take. lia.
  - intros e2 H2 Ht2. destruct rest as [|z rest]; [done|].
    injection H2 as ->.
    assert (¬ (tag_of e2 ∉ SKIPPED_TAGS)) as Hs2
      by (rewrite Ht2; intros H; apply H; compute_done).
    cbn [take drop]. rewrite filter_cons_False by done.
    split; [done|]. rewrite length_take. lia.
Qed.

Lemma C9_wrappers_take_cap_slots_witness :
  collect app_page many_divs
  = fold_left (λ a el, rules (body GlobalDocument app_page) many_divs el a)
      (filter (λ el, tag_of el ∉ SKIPPED_TAGS)
         (take 97 (drop 3 (elements_of many_divs))))
      no_candidates ∧
  length (take 97 (drop 3 (elements_of many_divs))) ≤ 97.
Proof.
  destruct (C9_wrappers_take_cap_slots app_page many_divs
              (Root ParsedDocument many_divs)
              (Child (Root ParsedDocument many_divs) 0 (head_of [])))
    as (_ & _ & _ & Hbody); [reflexivity..|].
  apply (Hbody (Child (Root ParsedDocument many_divs) 1
                  (body_of (replicate 120 (Element "DIV" [] [Text "x"])))));
    reflexivity.
Defined.

(** Against the bound of 97 in C9: ninety-eight link elements are placed
    in head, before body, which then stands at position 100. The rules are
    applied to all 98 of them, and each gives a CSS selector of its own to
    the result. *)
Lemma C9_ninety_eight_links_inspected :
  (tag_of <$> elements_of many_links !! 100) = Some "body" ∧
  collect app_page many_links
  = fold_left (λ a el, rules (body GlobalDocument app_page) many_links el a)
      (inspected many_links) no_candidates ∧
  length (inspected many_links) = 98 ∧
  tag_of <$> inspected many_links = replicate 98 "link" ∧
  length (css (synthesize app_page many_links)) = 98 ∧
  ¬ length (inspected many_links) ≤ 97.
Proof.
  assert (length (inspected many_links) = 98) as H by (by vm_compute).
  split_and!;
    [by vm_compute|apply collect_inspected|done|by vm_compute|by vm_compute|lia].
Qed.

(** A frameset document has no body: with an empty head the frameset and
    97 of its frames are within the cap, 98 elements of the caller. *)
Lemma frameset_page_inspected :
  (tag_of <$> elements_of frameset_page !! 2) = Some "frameset" ∧
  length (inspected frameset_page) = 98.
Proof. split; by vm_compute. Qed.

End XPathGenerator.

(** * Properties of the test data generator *)

Module TestDataProperties.

Import TestDataGenerator QArith_base Qround.

Local Open Scope nat_scope.

Lemma lt_spec (x y : Q) : lt x y = true ↔ (x < y)%Q.
Proof.
  unfold lt. rewrite negb_true_iff. split.
  - intros H. apply Qnot_le_lt. intros Hle.
    apply Qle_bool_iff in Hle. congruence.
  - intros H. destruct (Qle_bool y x) eqn:E; [|done].
    apply Qle_bool_iff in E. by apply Qlt_not_le in H.
Qed.

Lemma lt_false (x y : Q) : lt x y = false ↔ (y <= x)%Q.
Proof.
  unfold lt. rewrite negb_false_iff. apply Qle_bool_iff.
Qed.

(** The guard of the loop holds for exactly the first [iterations count]
    values of [i]. *)
Lemma guard_iterations (count : Q) (i : nat) :
  (0 <= count)%Q → lt (of_nat i) count = true ↔ i < iterations count.
Proof.
  intros Hpos. rewrite lt_spec. unfold iterations, of_nat.
  assert (0 <= Qceiling count)%Z as Hc.
  { rewrite Zle_Qle. eapply Qle_trans; [exact Hpos|apply Qle_ceiling]. }
  split.
  - intros H.
    assert (Z.of_nat i < Qceiling count)%Z; [|lia].
    rewrite Zlt_Qlt. eapply Qlt_le_trans; [exact H|apply Qle_ceiling].
  - intros H.
    assert (Z.of_nat i <= Qceiling count - 1)%Z as Hle by lia.
    rewrite Zle_Qle in Hle. eapply Qle_lt_trans; [exact Hle|].
    apply Qceiling_lt.
Qed.

Lemma for_loop_rows (faker : Faker) (t : DataType) (count : Q)
    (fuel i k : nat) (data : list GeneratedRow) :
  (0 <= count)%Q → iterations count - i ≤ fuel →
  for_loop faker t count fuel i k data
  = data ++ rows_from faker t (iterations count - i) i k.
Proof.
  intros Hpos. revert i k data.
  induction fuel as [|fuel IH]; intros i k data Hfuel; cbn [for_loop].
  - replace (iterations count - i) with 0 by lia. cbn. by rewrite app_nil_r.
  - destruct (lt (of_nat i) count) eqn:E.
    + apply guard_iterations in E; [|done].
      replace (iterations count - i) with (S (iterations count - S i)) by lia.
      cbn [rows_from].
      destruct (fill_row faker t k [("id", Num (of_nat (i + 1)))]) as [row k'].
      rewrite IH by lia. by rewrite <- app_assoc.
    + assert (¬ i < iterations count) as Hi.
      { intros Hi. apply guard_iterations in Hi; [|done]. congruence. }
      replace (iterations count - i) with 0 by lia. cbn. by rewrite app_nil_r.
Qed.

Lemma fill_row_shape (faker : Faker) (t : DataType) (k : nat) (v : Value) :
  keys (fill_row faker t k [("id", v)]).1 = "id" :: field_names t ∧
  get "id" (fill_row faker t k [("id", v)]).1 = Some v.
Proof. destruct t; split; reflexivity. Qed.

Lemma rows_from_length (faker : Faker) (t : DataType) (m i k : nat) :
  length (rows_from faker t m i k) = m.
Proof.
  revert i k. induction m as [|m IH]; intros i k; [done|]. cbn [rows_from].
  destruct (fill_row faker t k [("id", Num (of_nat (i + 1)))]) as [row k'].
  cbn. by rewrite IH.
Qed.

Lemma rows_from_lookup (faker : Faker) (t : DataType) (m i k j : nat)
    (row : GeneratedRow) :
  rows_from faker t m i k !! j = Some row →
  keys row = "id" :: field_names t ∧
  get "id" row = Some (Num (of_nat (i + j + 1))).
Proof.
  revert i k j. induction m as [|m IH]; intros i k j; [done|].
  cbn [rows_from].
  pose proof (fill_row_shape faker t k (Num (of_nat (i + 1)))) as Hshape.
  destruct (fill_row faker t k [("id", Num (of_nat (i + 1)))]) as [r k'].
  destruct j as [|j]; cbn.
  - intros [= <-]. by rewrite Nat.add_0_r.
  - intros H. apply IH in H. by rewrite Nat.add_succ_comm in H.
Qed.

Lemma iterations_bounds (count : Q) :
  (of_nat 1 <= count)%Q → (count <= of_nat 500)%Q →
  1 ≤ iterations count ≤ 500.
Proof.
  intros Hlo Hhi. unfold iterations.
  apply Qceiling_resp_le in Hlo, Hhi. unfold of_nat in *.
  rewrite Qceiling_Z in Hlo, Hhi. lia.
Qed.

Lemma generateData_valid (faker : Faker) (show : Q → string) (k : nat)
    (st : State) (count : Q) :
  rowCount st = Some count →
  (of_nat 1 <= count)%Q → (count <= of_nat 500)%Q →
  generateData faker show k st
  = (mkState (dataType st) (rowCount st)
       (rows_from faker (dataType st) (iterations count) 0 k),
     [ToastSuccess ("Generated " +:+ show count +:+ " rows of test data!")]).
Proof.
  intros Hcount Hlo Hhi. unfold generateData. rewrite Hcount.
  rewrite (proj2 (lt_false _ _) Hlo), (proj2 (lt_false _ _) Hhi). cbn [orb].
  pose proof (iterations_bounds count Hlo Hhi).
  rewrite for_loop_rows.
  - by rewrite Nat.sub_0_r.
  - eapply Qle_trans; [|exact Hlo]. done.
  - lia.
Qed.

(** A count that is not a number, below 1 or above 500 is refused: the
    state keeps its rows and the only effect is the error message; the
    library is not called. *)
Theorem generateData_refuses_bad_count (faker faker' : Faker)
    (show : Q → string) (k : nat) (st : State) :
  (rowCount st = None ∨
   ∃ count, rowCount st = Some count ∧
            ((count < of_nat 1)%Q ∨ (of_nat 500 < count)%Q)) →
  generateData faker show k st
  = (st, [ToastError "Please enter a number between 1 and 500"]) ∧
  generateData faker show k st = generateData faker' show k st.
Proof.
  intros [Hnan|(count & Hcount & Hbad)]; unfold generateData.
  - by rewrite Hnan.
  - rewrite Hcount.
    assert (lt count (of_nat 1) || lt (of_nat 500) count = true) as ->; [|done].
    apply orb_true_iff. destruct Hbad as [H|H]; [left|right]; by apply lt_spec.
Qed.

Lemma generateData_refuses_bad_count_witness :
  let st := mkState TName (Some (inject_Z 501)) [[("id", Num (inject_Z 1))]] in
  generateData constant_faker (λ _, "501") 0 st
  = (st, [ToastError "Please enter a number between 1 and 500"]).
Proof.
  apply (generateData_refuses_bad_count constant_faker constant_faker
           (λ _, "501") 0
           (mkState TName (Some (inject_Z 501)) [[("id", Num (inject_Z 1))]])).
  right. exists (inject_Z 501). split; [reflexivity|]. right. reflexivity.
Defined.

(** For a count between 1 and 500 the new data has as many rows as the
    least integer not below the count, so between 1 and 500 and exactly the
    count when it is whole; the rows are numbered 1, 2, 3, ... in their id;
    the rows held before are dropped. The loop ends by its own test, not by
    the bound of the model. *)
Theorem generateData_rows (faker : Faker) (show : Q → string) (k : nat)
    (st : State) (count : Q) :
  rowCount st = Some count →
  (of_nat 1 <= count)%Q → (count <= of_nat 500)%Q →
  let data := generatedData (generateData faker show k st).1 in
  length data = iterations count ∧
  1 ≤ length data ≤ 500 ∧
  (∀ n, count = of_nat n → length data = n) ∧
  (∀ j row, data !! j = Some row → get "id" row = Some (Num (of_nat (j + 1)))) ∧
  (∀ fuel, 501 ≤ fuel →
           for_loop faker (dataType st) count fuel 0 k [] = data).
Proof.
  intros Hcount Hlo Hhi. cbv zeta.
  rewrite (generateData_valid faker show k st count Hcount Hlo Hhi).
  cbn [fst generatedData].
  pose proof (iterations_bounds count Hlo Hhi) as Hb.
  rewrite rows_from_length. split_and!; [done|lia|lia| | |].
  - intros n ->. unfold iterations, of_nat. rewrite Qceiling_Z. lia.
  - intros j row H. by apply rows_from_lookup in H as [_ H].
  - intros fuel Hfuel. rewrite for_loop_rows.
    + by rewrite Nat.sub_0_r.
    + eapply Qle_trans; [|exact Hlo]. done.
    + lia.
Qed.

Lemma generateData_rows_witness :
  let st := mkState TEmail (Some (5 # 2)%Q) [] in
  length (generatedData (generateData constant_faker (λ _, "2.5") 0 st).1) = 3.
Proof.
  cbv zeta.
  rewrite (proj1 (generateData_rows constant_faker (λ _, "2.5") 0
                    (mkState TEmail (Some (5 # 2)%Q) []) (5 # 2)%Q
                    eq_refl ltac:(by vm_compute) ltac:(by vm_compute))).
  reflexivity.
Defined.

Lemma rows_from_Forall (P : GeneratedRow → Prop) (faker : Faker)
    (t : DataType) (m i k : nat) :
  (∀ k v, P (fill_row faker t k [("id", v)]).1) →
  Forall P (rows_from faker t m i k).
Proof.
  intros HP. revert i k. induction m as [|m IH]; intros i k; [by constructor|].
  cbn [rows_from].
  pose proof (HP k (Num (of_nat (i + 1)))) as Hrow.
  destruct (fill_row faker t k [("id", Num (of_nat (i + 1)))]) as [row k'].
  constructor; [done|apply IH].
Qed.

(** After a generation every row has the same keys in the same order, id
    first and then the fields of the chosen type of data: the columns taken
    from the first row describe all rows. *)
Theorem generated_rows_share_columns (faker : Faker) (show : Q → string)
    (k : nat) (st : State) (count : Q) :
  rowCount st = Some count →
  (of_nat 1 <= count)%Q → (count <= of_nat 500)%Q →
  let st' := (generateData faker show k st).1 in
  columns st' = "id" :: field_names (dataType st) ∧
  ∀ row, row ∈ generatedData st' → keys row = columns st'.
Proof.
  intros Hcount Hlo Hhi. cbv zeta.
  rewrite (generateData_valid faker show k st count Hcount Hlo Hhi).
  cbn [fst]. unfold columns. cbn [generatedData].
  pose proof (iterations_bounds count Hlo Hhi) as Hb.
  pose proof (rows_from_Forall
                (λ row, keys row = "id" :: field_names (dataType st))
                faker (dataType st) (iterations count) 0 k
                (λ k v, proj1 (fill_row_shape faker (dataType st) k v))) as Hall.
  destruct (rows_from faker (dataType st) (iterations count) 0 k)
    as [|row rows] eqn:E.
  - apply (f_equal length) in E. rewrite rows_from_length in E. cbn in E. lia.
  - rewrite Forall_forall in Hall. split.
    + apply Hall, list_elem_of_here.
    + intros r Hr. rewrite (Hall r Hr). symmetry.
      apply Hall, list_elem_of_here.
Qed.

Lemma generated_rows_share_columns_witness :
  columns (generateData constant_faker (λ _, "2") 0
             (mkState TAddress (Some (inject_Z 2)) [])).1
  = ["id"; "street"; "city"; "state"; "zipCode"; "country"].
Proof.
  exact (proj1 (generated_rows_share_columns constant_faker (λ _, "2") 0
                  (mkState TAddress (Some (inject_Z 2)) []) (inject_Z 2)
                  eq_refl ltac:(by vm_compute) ltac:(by vm_compute))).
Defined.

(** With no rows, copying and downloading only report an error; right
    after a generation they hand out the CSV of exactly the generated rows,
    the download under a name made of the type of data and the time. *)
Theorem export_follows_generation (faker : Faker) (show : Q → string)
    (unparse : list GeneratedRow → string) (now : string)
    (k : nat) (st : State) (count : Q) :
  rowCount st = Some count →
  (of_nat 1 <= count)%Q → (count <= of_nat 500)%Q →
  let st' := (generateData faker show k st).1 in
  copyData unparse (mkState (dataType st) (rowCount st) [])
  = [ToastError "No data to copy. Generate data first!"] ∧
  downloadCSV unparse now (mkState (dataType st) (rowCount st) [])
  = [ToastError "No data to download. Generate data first!"] ∧
  copyData unparse st'
  = [ClipboardWrite (unparse (generatedData st'));
     ToastSuccess "Data copied to clipboard!"] ∧
  downloadCSV unparse now st'
  = [Download
       ("test-data-" +:+ DataType_string (dataType st) +:+ "-" +:+ now +:+ ".csv")
       (unparse (generatedData st'));
     ToastSuccess "CSV file downloaded!"].
Proof.
  intros Hcount Hlo Hhi. cbv zeta.
  rewrite (generateData_valid faker show k st count Hcount Hlo Hhi).
  cbn [fst]. pose proof (iterations_bounds count Hlo Hhi) as Hb.
  unfold copyData, downloadCSV. cbn [generatedData dataType length].
  rewrite rows_from_length.
  rewrite (bool_decide_eq_false_2 (iterations count = 0)) by lia.
  by rewrite bool_decide_eq_true_2.
Qed.

Lemma export_follows_generation_witness :
  copyData (λ rows, "csv")
    (generateData constant_faker (λ _, "1") 0
       (mkState TUuid (Some (inject_Z 1)) [])).1
  = [ClipboardWrite "csv"; ToastSuccess "Data copied to clipboard!"].
Proof.
  destruct (export_follows_generation constant_faker (λ _, "1") (λ rows, "csv")
              "0" 0 (mkState TUuid (Some (inject_Z 1)) []) (inject_Z 1)
              eq_refl ltac:(by vm_compute) ltac:(by vm_compute))
    as (_ & _ & H & _).
  exact H.
Defined.

Lemma before_T_without_T (s : string) :
  JS.contains_char "T" (before_T s) = false.
Proof.
  induction s as [|c s IH]; [done|]. cbn [before_T].
  case_bool_decide as Hc; [done|]. cbn [JS.contains_char].
  by rewrite bool_decide_eq_false_2 by congruence.
Qed.

Lemma before_T_cut (s : string) :
  ∃ rest, s = before_T s +:+ rest ∧
          (rest = EmptyString ∨ ∃ r, rest = String "T" r).
Proof.
  induction s as [|c s (rest & Hs & Hrest)]; cbn [before_T].
  - exists EmptyString. split; [done|by left].
  - case_bool_decide as Hc.
    + subst c. exists (String "T" s). split; [done|]. right. by eexists.
    + exists rest. split; [|done].
      change (String c (before_T s) +:+ rest)
        with (String c (before_T s +:+ rest)).
      by rewrite <- Hs.
Qed.

(** For the type date every generated row holds, in pastDate, futureDate
    and recentDate, the ISO string the library returned for the matching
    call (date.past, date.future, date.recent) cut before its first T: the
    field has no T, and the ISO string is the field followed by nothing or
    by a rest that starts with T. *)
Theorem date_fields_hold_the_day (faker : Faker) (show : Q → string)
    (k : nat) (st : State) (count : Q) (row : GeneratedRow) (key : string)
    (method : FakerCall) :
  dataType st = TDate →
  rowCount st = Some count →
  (of_nat 1 <= count)%Q → (count <= of_nat 500)%Q →
  row ∈ generatedData (generateData faker show k st).1 →
  (key, method) ∈ [("pastDate", date_past); ("futureDate", date_future);
                   ("recentDate", date_recent)] →
  ∃ call day rest,
    get key row = Some (Str day) ∧
    text faker method call = day +:+ rest ∧
    JS.contains_char "T" day = false ∧
    (rest = EmptyString ∨ ∃ r, rest = String "T" r).
Proof.
  intros Ht Hcount Hlo Hhi.
  rewrite (generateData_valid faker show k st count Hcount Hlo Hhi).
  cbn [fst generatedData]. rewrite Ht. intros Hrow Hkey.
  pose proof (rows_from_Forall
                (λ row, ∀ key method,
                   (key, method) ∈ [("pastDate", date_past);
                                    ("futureDate", date_future);
                                    ("recentDate", date_recent)] →
                   ∃ call day rest,
                     get key row = Some (Str day) ∧
                     text faker method call = day +:+ rest ∧
                     JS.contains_char "T" day = false ∧
                     (rest = EmptyString ∨ ∃ r, rest = String "T" r))
                faker TDate (iterations count) 0 k) as Hall.
  rewrite Forall_forall in Hall. apply Hall; [|done..].
  intros k0 v key0 method0 Hkey0.
  repeat (apply elem_of_cons in Hkey0 as [[= -> ->]|Hkey0]);
    [..|by apply elem_of_nil in Hkey0].
  - destruct (before_T_cut (text faker date_past k0)) as (rest & Hcut & Hrest).
    exists k0, (before_T (text faker date_past k0)), rest.
    split_and!; [reflexivity|done|apply before_T_without_T|done].
  - destruct (before_T_cut (text faker date_future (k0 + 1)))
      as (rest & Hcut & Hrest).
    exists (k0 + 1), (before_T (text faker date_future (k0 + 1))), rest.
    split_and!; [reflexivity|done|apply before_T_without_T|done].
  - destruct (before_T_cut (text faker date_recent (k0 + 2)))
      as (rest & Hcut & Hrest).
    exists (k0 + 2), (before_T (text faker date_recent (k0 + 2))), rest.
    split_and!; [reflexivity|done|apply before_T_without_T|done].
Qed.

Lemma date_fields_hold_the_day_witness :
  ∃ call day rest,
    get "pastDate" [("id", Num (of_nat 1)); ("pastDate", Str "2024-05-06");
                    ("futureDate", Str "2024-05-06");
                    ("recentDate", Str "2024-05-06")]
    = Some (Str day) ∧
    text constant_faker date_past call = day +:+ rest ∧
    JS.contains_char "T" day = false ∧
    (rest = EmptyString ∨ ∃ r, rest = String "T" r).
Proof.
  apply (date_fields_hold_the_day constant_faker (λ _, "1") 0
           (mkState TDate (Some (inject_Z 1)) []) (inject_Z 1)).
  - reflexivity.
  - reflexivity.
  - by vm_compute.
  - by vm_compute.
  - vm_compute. apply list_elem_of_here.
  - apply list_elem_of_here.
Defined.

End TestDataProperties.
